(** * nsoap: the path analyzer and the routing executor of [src/nsoap.js]

    A shallow embedding of the module and the proofs of its specified
    properties.

    Conventions of the embedding.
    - A JavaScript string is the list of its UTF-16 code units ([jsstring]);
      [str] turns an ASCII literal into one.
    - A Number is written [Finite q], the Number value for the rational [q]
      (the F(q) of the language's specification), or [NegativeZero], or
      [NaN], or an infinity.  The conversion of a string to a number rounds
      to the nearest double, a tie going to the even significand, overflows
      to an infinity and keeps the sign of a zero; the [q] it gives is the
      exact value of the double, in lowest terms.  The code only tests
      numbers ([isNaN], truthiness, [typeof]) and passes them on, so no
      arithmetic on them is needed.
    - Values are the primitives, ordinary objects (own data properties and
      the data properties they inherit), functions, settled promises and
      [RoutingError] instances.  A function value names a host function; what
      it does when called is given by the host ([invoke]), which has a state
      of its own ([World]).  Every call the module makes is recorded in a
      trace.
    - [await v] is the value a settled promise was fulfilled with, or the
      throw of its rejection reason; suspension points are not visible
      otherwise.  A throw inside the async function [route] is the rejection
      of the promise it returns.
    - The [while (true)] loop of [iterateToEnd] runs on fuel.
    - Properties are data properties.  An object inherits what its
      [inherited] list holds; the members of the platform's own prototypes
      are left out, and [await] takes no object but a promise for a
      thenable. *)

From Stdlib Require Import Ascii String DecimalString.
From Stdlib Require Import List ZArith NArith QArith Qabs Bool Lia.
Import ListNotations.

Open Scope Z_scope.
Open Scope list_scope.

(** ** Strings *)

Module JsString.

Definition codeunit := N.
Definition jsstring := list codeunit.

Definition str (s : string) : jsstring :=
  List.map N_of_ascii (list_ascii_of_string s).

Definition chr (c : ascii) : codeunit := N_of_ascii c.

Fixpoint eqb (s t : jsstring) : bool :=
  match s, t with
  | [], [] => true
  | c :: s', d :: t' => N.eqb c d && eqb s' t'
  | _, _ => false
  end.

(** [String.prototype.indexOf] for a one-character needle: the position of
    its first occurrence, or -1. *)
Fixpoint indexOf (c : codeunit) (s : jsstring) : Z :=
  match s with
  | [] => -1
  | d :: s' =>
      if N.eqb d c then 0
      else let i := indexOf c s' in if i <? 0 then -1 else i + 1
  end.

(** [String.prototype.substring start end]: both positions are clamped to
    [0, length], and swapped when the first is the larger one. *)
Definition clamp (len i : Z) : Z := Z.min (Z.max i 0) len.

Definition substring (s : jsstring) (start finish : Z) : jsstring :=
  let len := Z.of_nat (List.length s) in
  let a := clamp len start in
  let b := clamp len finish in
  let from := Z.min a b in
  let to := Z.max a b in
  firstn (Z.to_nat (to - from)) (skipn (Z.to_nat from) s).

(** [String.prototype.split] for a one-character separator: the pieces
    between the separators, in order; always at least one piece. *)
Fixpoint split (sep : codeunit) (s : jsstring) : list jsstring :=
  match s with
  | [] => [[]]
  | c :: s' =>
      if N.eqb c sep then [] :: split sep s'
      else match split sep s' with
           | [] => [[c]]
           | p :: ps => (c :: p) :: ps
           end
  end.

(** White space and line terminators, as [trim] and the conversion of a
    string to a number skip them. *)
Definition isWhiteSpace (c : codeunit) : bool :=
  existsb (N.eqb c)
    [0x9; 0xA; 0xB; 0xC; 0xD; 0x20; 0xA0; 0x1680; 0x2028; 0x2029;
     0x202F; 0x205F; 0x3000; 0xFEFF]%N
  || ((0x2000 <=? c)%N && (c <=? 0x200A)%N).

Fixpoint trimStart (s : jsstring) : jsstring :=
  match s with
  | c :: s' => if isWhiteSpace c then trimStart s' else s
  | [] => []
  end.

Definition trimEnd (s : jsstring) : jsstring := rev (trimStart (rev s)).

Definition trim (s : jsstring) : jsstring := trimEnd (trimStart s).

(** The pieces of a list joined with a separator ([Array.prototype.join]). *)
Fixpoint join (sep : jsstring) (l : list jsstring) : jsstring :=
  match l with
  | [] => []
  | [s] => s
  | s :: l' => s ++ sep ++ join sep l'
  end.

End JsString.
Import JsString.

(** ** Numbers *)

(** A Number value.  [Finite q] is the Number value for the rational [q]:
    the double nearest to it, and [+0] when that is a zero; [NegativeZero]
    is [-0]. *)
Inductive number : Type :=
| NaN
| Infinity (negative : bool)
| NegativeZero
| Finite (q : Q).

Module Number.

(** The Number value for [q] is a zero exactly when [q] rounds to zero, that
    is, up to half of the smallest positive double, two to the -1074. *)
Definition tiny : positive := Pos.pow 2 1075.

Definition isZero (n : number) : bool :=
  match n with
  | Finite q => Qle_bool (Qabs q) (1 # tiny)
  | NegativeZero => true
  | _ => false
  end.

Definition isNaN (n : number) : bool :=
  match n with NaN => true | _ => false end.

(** The floor of the binary logarithm of [n / d]. *)
Definition floorLog2 (n d : positive) : Z :=
  let k := Z.log2 (Zpos n) - Z.log2 (Zpos d) in
  if Zpos n * 2 ^ Z.max (- k) 0 <? Zpos d * 2 ^ Z.max k 0 then k - 1 else k.

(** The Number value for a mathematical value that is not negative: the
    nearest double, a tie going to the even significand.  The significand
    [m] has 53 bits at the exponent [e], fewer at the least exponent, -1074
    (the subnormal numbers, and zero); past the largest double the result is
    an infinity.  The value of a literal is rounded once, whatever the
    number of its digits, as the engines do. *)
Definition roundToDouble (q : Q) : number :=
  match Qnum q with
  | Zpos n =>
      let d := Qden q in
      let e := Z.max (-1074) (floorLog2 n d - 52) in
      let num := Zpos n * 2 ^ Z.max (- e) 0 in
      let den := Zpos d * 2 ^ Z.max e 0 in
      let m0 := num / den in
      let r := num mod den in
      let m :=
        if 2 * r <? den then m0
        else if den <? 2 * r then m0 + 1
        else if Z.even m0 then m0 else m0 + 1 in
      if m =? 0 then Finite 0
      else if (971 <? e) || ((e =? 971) && (m =? 2 ^ 53)) then Infinity false
      else if 0 <=? e then Finite (inject_Z (m * 2 ^ e))
      else Finite (Qred (m # Z.to_pos (2 ^ (- e))))
  | _ => Finite 0
  end.

Definition digit (base : N) (c : codeunit) : option N :=
  let v :=
    if ((48 <=? c) && (c <=? 57))%N then Some (c - 48)%N
    else if ((97 <=? c) && (c <=? 102))%N then Some (c - 87)%N
    else if ((65 <=? c) && (c <=? 70))%N then Some (c - 55)%N
    else None in
  match v with
  | Some d => if (d <? base)%N then Some d else None
  | None => None
  end.

(** The longest prefix of digits of a string, and what follows it. *)
Fixpoint digits (base : N) (s : jsstring) : list N * jsstring :=
  match s with
  | c :: s' =>
      match digit base c with
      | Some d => let (ds, r) := digits base s' in (d :: ds, r)
      | None => ([], s)
      end
  | [] => ([], [])
  end.

Definition digitsValue (base : N) (ds : list N) : Z :=
  fold_left (fun acc d => acc * Z.of_N base + Z.of_N d) ds 0.

(** [0x..], [0o..] and [0b..] literals: no sign, at least one digit. *)
Definition nonDecimalLiteral (s : jsstring) : option number :=
  match s with
  | 48%N :: x :: ds =>
      let base :=
        if (N.eqb x 120 || N.eqb x 88) then Some 16%N
        else if (N.eqb x 111 || N.eqb x 79) then Some 8%N
        else if (N.eqb x 98 || N.eqb x 66) then Some 2%N
        else None in
      match base with
      | Some b =>
          match digits b ds with
          | (d :: dl, []) =>
              Some (roundToDouble (inject_Z (digitsValue b (d :: dl))))
          | _ => None
          end
      | None => None
      end
  | _ => None
  end.

(** The exponent part of a decimal literal, when there is one: [e] or [E], a
    sign or none, at least one digit, and then the end of the string. *)
Definition exponentPart (s : jsstring) : option Z :=
  match s with
  | [] => Some 0
  | e :: s' =>
      if (N.eqb e 101 || N.eqb e 69) then
        let (neg, s'') :=
          match s' with
          | 45%N :: r => (true, r)
          | 43%N :: r => (false, r)
          | _ => (false, s')
          end in
        match digits 10 s'' with
        | (d :: dl, []) =>
            let v := digitsValue 10 (d :: dl) in
            Some (if neg then - v else v)
        | _ => None
        end
      else None
  end.

Definition unsignedDecimalLiteral (s : jsstring) : option number :=
  if JsString.eqb s (str "Infinity") then Some (Infinity false)
  else
    let (ip, r) := digits 10 s in
    let (fp, r') :=
      match r with
      | 46%N :: r1 => digits 10 r1
      | _ => ([], r)
      end in
    match ip ++ fp with
    | [] => None
    | _ =>
        match exponentPart r' with
        | Some e =>
            let m := digitsValue 10 (ip ++ fp) in
            Some (roundToDouble
                    (inject_Z m
                     * Qpower (10 # 1) (e - Z.of_nat (List.length fp))))
        | None => None
        end
    end.

Definition negate (n : number) : number :=
  match n with
  | NaN => NaN
  | Infinity b => Infinity (negb b)
  | NegativeZero => Finite 0
  | Finite q => if Qeq_bool q 0 then NegativeZero else Finite (Qred (- q))
  end.

Definition decimalLiteral (s : jsstring) : option number :=
  match s with
  | 45%N :: r => option_map negate (unsignedDecimalLiteral r)
  | 43%N :: r => unsignedDecimalLiteral r
  | _ => unsignedDecimalLiteral s
  end.

(** The conversion of a string to a number ([+a], and what [isNaN(a)]
    applies to a string first): white space around is dropped, the empty
    string is zero, and anything that is no numeric literal is [NaN]. *)
Definition StringToNumber (s : jsstring) : number :=
  match trim s with
  | [] => Finite 0
  | t =>
      match nonDecimalLiteral t with
      | Some n => n
      | None =>
          match decimalLiteral t with
          | Some n => n
          | None => NaN
          end
      end
  end.

End Number.

(** ** [decodeURI] *)

Module URI.

Definition percent : codeunit := 37%N.

Definition ParseHexOctet (h1 h2 : codeunit) : option N :=
  match Number.digit 16 h1, Number.digit 16 h2 with
  | Some a, Some b => Some (16 * a + b)%N
  | _, _ => None
  end.

(** The characters whose escapes [decodeURI] leaves as they are written:
    [; / ? : @ & = + $ ,] and [#]. *)
Definition preserveEscapeSet : jsstring := str ";/?:@&=+$,#".

Definition preserved (c : codeunit) : bool :=
  existsb (N.eqb c) preserveEscapeSet.

(** What the first octet of a UTF-8 sequence announces: the number of its
    leading one bits. *)
Definition leadingOnes (b : N) : nat :=
  if (b <? 0x80)%N then 0
  else if (b <? 0xC0)%N then 1
  else if (b <? 0xE0)%N then 2
  else if (b <? 0xF0)%N then 3
  else if (b <? 0xF8)%N then 4
  else 5.

(** [n] further escapes [%XX], each a continuation octet [10xxxxxx]; the
    bits they carry appended to [acc]. *)
Fixpoint continuation (n : nat) (acc : N) (s : jsstring) : option N :=
  match n with
  | O => Some acc
  | S n' =>
      match s with
      | p :: h1 :: h2 :: s' =>
          if N.eqb p percent then
            match ParseHexOctet h1 h2 with
            | Some b =>
                if N.eqb (N.land b 0xC0) 0x80
                then continuation n' (acc * 64 + N.land b 0x3F)%N s'
                else None
            | None => None
            end
          else None
      | _ => None
      end
  end.

(** The code point of a well-formed UTF-8 sequence of [n] octets is in the
    range only [n] octets can encode, and is no surrogate. *)
Definition validCodePoint (n : nat) (cp : N) : bool :=
  match n with
  | 2%nat => (0x80 <=? cp)%N
  | 3%nat => (0x800 <=? cp)%N && negb ((0xD800 <=? cp)%N && (cp <=? 0xDFFF)%N)
  | 4%nat => (0x10000 <=? cp)%N && (cp <=? 0x10FFFF)%N
  | _ => false
  end.

Definition UTF16EncodeCodePoint (cp : N) : jsstring :=
  if (cp <? 0x10000)%N then [cp]
  else
    let c := (cp - 0x10000)%N in
    [(0xD800 + c / 1024)%N; (0xDC00 + c mod 1024)%N].

(** One escape, read at the code unit after its [%]: what it decodes to and
    how many code units it takes after that [%]; [None] is a [URIError]. *)
Definition decodeEscape (s : jsstring) : option (jsstring * nat) :=
  match s with
  | h1 :: h2 :: s' =>
      match ParseHexOctet h1 h2 with
      | Some b =>
          match leadingOnes b with
          | O =>
              Some (if preserved b then [percent; h1; h2] else [b], 2%nat)
          | 1%nat => None
          | S (S k as n') =>
              let payload := N.land b (N.shiftr 0xFF (N.of_nat (S (S n')))) in
              match continuation n' payload s' with
              | Some cp =>
                  if validCodePoint (S n') cp
                  then Some (UTF16EncodeCodePoint cp, (2 + 3 * n')%nat)
                  else None
              | None => None
              end
          end
      | None => None
      end
  | _ => None
  end.

End URI.

(** ** Values *)

(** The identity of a host function: what calling it does is up to the host. *)
Definition fid := nat.

#[warnings="-register-all"]
Inductive value : Type :=
| VUndefined
| VNull
| VBoolean (b : bool)
| VNumber (n : number)
| VString (s : jsstring)
| VObject (own inherited : list (jsstring * value))
| VFunction (f : fid) (own : list (jsstring * value))
| VPromise (fulfilled : bool) (v : value)
| VRoutingError (message type : jsstring).

(** What a JavaScript throw carries: one of the platform's errors the module
    can run into, or a value thrown by the host (or the reason of a rejected
    promise). *)
Inductive exn : Type :=
| TypeError
| URIError
| Thrown (v : value).

(** How an evaluation ends: with a value, with a throw, or not within the
    fuel (a call that does not return, a loop that does not end). *)
Inductive completion (A : Type) : Type :=
| Returns (a : A)
| Throws (e : exn)
| Unfinished.

Arguments Returns {A} a.
Arguments Throws {A} e.
Arguments Unfinished {A}.

Definition cbind {A B} (c : completion A) (k : A -> completion B) : completion B :=
  match c with
  | Returns a => k a
  | Throws e => Throws e
  | Unfinished => Unfinished
  end.

Definition cmap {A B} (f : A -> B) (c : completion A) : completion B :=
  cbind c (fun a => Returns (f a)).

Inductive jstype : Type :=
| TUndefined | TObject | TBoolean | TNumber | TString | TFunction.

Definition jstype_eqb (a b : jstype) : bool :=
  match a, b with
  | TUndefined, TUndefined | TObject, TObject | TBoolean, TBoolean
  | TNumber, TNumber | TString, TString | TFunction, TFunction => true
  | _, _ => false
  end.

(** The [typeof] operator. *)
Definition typeof (v : value) : jstype :=
  match v with
  | VUndefined => TUndefined
  | VNull => TObject
  | VBoolean _ => TBoolean
  | VNumber _ => TNumber
  | VString _ => TString
  | VObject _ _ => TObject
  | VFunction _ _ => TFunction
  | VPromise _ _ => TObject
  | VRoutingError _ _ => TObject
  end.

(** The string [typeof] evaluates to. *)
Definition typeName (t : jstype) : jsstring :=
  match t with
  | TUndefined => str "undefined"
  | TObject => str "object"
  | TBoolean => str "boolean"
  | TNumber => str "number"
  | TString => str "string"
  | TFunction => str "function"
  end.

(** Truthiness, as [if], [&&], [||] and [?:] test it. *)
Definition truthy (v : value) : bool :=
  match v with
  | VUndefined | VNull => false
  | VBoolean b => b
  | VNumber n => negb (Number.isNaN n || Number.isZero n)
  | VString s => match s with [] => false | _ => true end
  | _ => true
  end.

Fixpoint lookup (k : jsstring) (props : list (jsstring * value)) : option value :=
  match props with
  | [] => None
  | (k', v) :: props' => if JsString.eqb k' k then Some v else lookup k props'
  end.

Definition decimal (n : nat) : jsstring :=
  str (NilZero.string_of_uint (Nat.to_uint n)).

(** The own properties of a string: its length and its code units, under
    their positions. *)
Definition stringOwn (s : jsstring) (k : jsstring) : option value :=
  if JsString.eqb k (str "length")
  then Some (VNumber (Finite (inject_Z (Z.of_nat (List.length s)))))
  else
    match find (fun i => JsString.eqb k (decimal i)) (seq 0 (List.length s)) with
    | Some i => Some (VString (firstn 1 (skipn i s)))
    | None => None
    end.

(** The own property [k] of a value that can have properties, when it has
    one. *)
Definition ownProperty (v : value) (k : jsstring) : option value :=
  match v with
  | VObject own _ => lookup k own
  | VFunction _ own => lookup k own
  | VString s => stringOwn s k
  | VRoutingError m t =>
      if JsString.eqb k (str "message") then Some (VString m)
      else if JsString.eqb k (str "type") then Some (VString t)
      else None
  | _ => None
  end.

(** [Object.prototype.hasOwnProperty.call(obj, prop)]: a [TypeError] on
    [undefined] and [null], which are turned into no object. *)
Definition Object_hasOwnProperty (obj : value) (prop : jsstring) : completion bool :=
  match obj with
  | VUndefined | VNull => Throws TypeError
  | _ => Returns (match ownProperty obj prop with Some _ => true | None => false end)
  end.

(** The read of a member, [v.k] or [v[k]]: an own property, else an inherited
    one, else [undefined]; a [TypeError] on [undefined] and [null]. *)
Definition Get (v : value) (k : jsstring) : completion value :=
  match v with
  | VUndefined | VNull => Throws TypeError
  | _ =>
      match ownProperty v k with
      | Some x => Returns x
      | None =>
          match v with
          | VObject _ inherited =>
              Returns (match lookup k inherited with Some x => x | None => VUndefined end)
          | _ => Returns VUndefined
          end
      end
  end.

(** [await v]: a promise gives what it was fulfilled with (a promise
    resolved with a promise takes its state) or throws the reason it was
    rejected with; any other value is itself. *)
Fixpoint await (v : value) : completion value :=
  match v with
  | VPromise true x => await x
  | VPromise false r => Throws (Thrown r)
  | _ => Returns v
  end.

(** [decodeURI]: the decoding loop over the code units; [skip] counts the
    code units of an escape that was just read. *)
Fixpoint Decode (skip : nat) (s : jsstring) : completion jsstring :=
  match s with
  | [] => Returns []
  | c :: t =>
      match skip with
      | S k => Decode k t
      | O =>
          if N.eqb c URI.percent then
            match URI.decodeEscape t with
            | Some (decoded, k) => cmap (app decoded) (Decode k t)
            | None => Throws URIError
            end
          else cmap (cons c) (Decode O t)
      end
  end.

Definition decodeURI (encodedPath : jsstring) : completion jsstring :=
  Decode O encodedPath.

(** ** The host *)

(** The application around the module: the functions of the object graph,
    the resolver functions among the argument sources and the hooks of the
    options.  [invoke f this args w] is the call of the function [f] in
    the host's state [w]: how it ends, and the state after it. *)
Class Host : Type := {
  World : Type;
  invoke : fid -> value -> list value -> World -> completion value * World
}.

(** A call the module made: the function, its [this] and its arguments. *)
Inductive event : Type :=
| Call (f : fid) (this : value) (args : list value).

Record state `{Host} : Type := {
  world : World;
  trace : list event
}.

(** The module's computations: they run in a state and end in a state. *)
Definition M `{Host} (A : Type) : Type := state -> completion A * state.

Definition ret `{Host} {A} (a : A) : M A := fun st => (Returns a, st).

Definition bind `{Host} {A B} (m : M A) (k : A -> M B) : M B :=
  fun st =>
    match m st with
    | (Returns a, st') => k a st'
    | (Throws e, st') => (Throws e, st')
    | (Unfinished, st') => (Unfinished, st')
    end.

Definition lift `{Host} {A} (c : completion A) : M A := fun st => (c, st).

Declare Scope js_scope.
Delimit Scope js_scope with js.
Notation "x <- m ;; k" := (bind m (fun x => k))
  (at level 100, m at next level, right associativity) : js_scope.
Notation "' p <- m ;; k" := (bind m (fun x => match x with p => k end))
  (at level 100, p pattern, m at next level, right associativity) : js_scope.
Open Scope js_scope.

(** The call [callee.apply(this, args)]; calling what is no function is a
    [TypeError]. *)
Definition call `{Host} (callee this : value) (args : list value) : M value :=
  match callee with
  | VFunction f _ =>
      fun st =>
        let (r, w) := invoke f this args (world st) in
        (r, {| world := w; trace := trace st ++ [Call f this args] |})
  | _ => lift (Throws TypeError)
  end.

Fixpoint mapM `{Host} {A B} (f : A -> M B) (l : list A) : M (list B) :=
  match l with
  | [] => ret []
  | a :: l' => b <- f a ;; bs <- mapM f l' ;; ret (b :: bs)
  end.

(** ** The module *)

(** [/^[a-zA-Z_$][a-zA-Z_$0-9]*$/.test(a)] *)
Definition identifierStart (c : codeunit) : bool :=
  ((97 <=? c) && (c <=? 122))%N || ((65 <=? c) && (c <=? 90))%N
  || N.eqb c 95 || N.eqb c 36.

Definition identifierPart (c : codeunit) : bool :=
  identifierStart c || ((48 <=? c) && (c <=? 57))%N.

Definition identifierRegex_test (a : jsstring) : bool :=
  match a with
  | c :: a' => identifierStart c && forallb identifierPart a'
  | [] => false
  end.

(** The global [isNaN], on a string. *)
Definition isNaN (a : jsstring) : bool := Number.isNaN (Number.StringToNumber a).

(** The object literals [{ value: v }] and [{ error: message }]. *)
Definition valueObject (v : value) : value := VObject [(str "value", v)] [].
Definition errorObject (message : jsstring) : value :=
  VObject [(str "error", VString message)] [].

(** [hasOwnProperty(obj, prop)] of the module. *)
Definition hasOwnProperty (obj : value) (prop : jsstring) : completion bool :=
  if jstype_eqb (typeof obj) TObject then Object_hasOwnProperty obj prop
  else Returns false.

(** The loop of [getArgumentValue] over the argument sources. *)
Fixpoint lookupDicts `{Host} (dicts : list value) (a : jsstring) : M value :=
  match dicts with
  | [] => ret (valueObject (VString a))
  | dict :: dicts' =>
      if jstype_eqb (typeof dict) TFunction then
        val <- call dict VUndefined [VString a] ;;
        if truthy val then ret val else lookupDicts dicts' a
      else
        own <- lift (hasOwnProperty dict a) ;;
        if own then
          v <- lift (Get dict a) ;;
          ret (valueObject v)
        else lookupDicts dicts' a
  end.

Definition getArgumentValue `{Host} (dicts : list value) (a : jsstring) : M value :=
  if JsString.eqb a (str "true") || JsString.eqb a (str "false")
  then ret (valueObject (VBoolean (JsString.eqb a (str "true"))))
  else if isNaN a then
    if identifierRegex_test a then lookupDicts dicts a
    else ret (errorObject (a ++ str " is not a valid identifier."))
  else ret (valueObject (VNumber (Number.StringToNumber a))).

(** One step of the path. *)
Inductive Part : Type :=
| ObjectPart (identifier : jsstring)
| FunctionPart (identifier : jsstring) (args : list value).

Definition identifier (part : Part) : jsstring :=
  match part with
  | ObjectPart i => i
  | FunctionPart i _ => i
  end.

(** The callback of [parts.map] in [analyzePath]. *)
Definition analyzePart `{Host} (dicts : list value) (part : jsstring) : M Part :=
  let openingBracket := indexOf (chr "(") part in
  let isFunction := openingBracket >? -1 in
  if isFunction then
    let closingBracket := indexOf (chr ")") part in
    let identifier := substring part 0 openingBracket in
    let argsString := substring part (openingBracket + 1) closingBracket in
    args <- mapM (getArgumentValue dicts)
              (List.map trim (split (chr ",") argsString)) ;;
    ret (FunctionPart identifier args)
  else ret (ObjectPart part).

(** The segments of a decoded path: [path.indexOf(".") ? path.split(".") :
    [path]], where the position 0 is the falsy one. *)
Definition pathParts (path : jsstring) : list jsstring :=
  if indexOf (chr ".") path =? 0 then [path] else split (chr ".") path.

Definition analyzePath `{Host} (encodedPath : jsstring) (dicts : list value)
  : M (list Part) :=
  path <- lift (decodeURI encodedPath) ;;
  mapM (analyzePart dicts) (pathParts path).

(** [new RoutingError(message, type)] *)
Definition RoutingError (message type : jsstring) : value :=
  VRoutingError message type.

Definition NOT_FOUND : value :=
  RoutingError (str "The requested path was not found.") (str "NOT_FOUND").

Definition NOT_A_FUNCTION (obj : jsstring) (fn : value) : value :=
  RoutingError
    (obj ++ str " is not a function. Was " ++ typeName (typeof fn) ++ str ".")
    (str "NOT_A_FUNCTION").

(** [gen.next && typeof gen.next === "function"] *)
Definition __isIterable (gen : value) : completion value :=
  cbind (Get gen (str "next")) (fun next =>
    if truthy next
    then Returns (VBoolean (jstype_eqb (typeof next) TFunction))
    else Returns next).

(** The options of [route]; a hook or a flag that is not configured is
    [undefined], and so are [args] and [index] when they are [None]. *)
Record Options : Type := {
  onNextValue : value;
  args : option (list value);
  prependArgs : value;
  modifyHandler : value;
  index : option jsstring
}.

Definition noOptions : Options :=
  {| onNextValue := VUndefined; args := None; prependArgs := VUndefined;
     modifyHandler := VUndefined; index := None |}.

(** An array as a value: its elements under their positions, and its
    length. *)
Definition arrayObject (l : list value) : value :=
  VObject
    (List.map (fun iv => (decimal (fst iv), snd iv))
       (combine (seq 0 (List.length l)) l)
     ++ [(str "length", VNumber (Finite (inject_Z (Z.of_nat (List.length l)))))])
    [].

(** The options object itself, which is the [this] of the hooks. *)
Definition optionsObject (options : Options) : value :=
  VObject
    ([(str "onNextValue", onNextValue options)]
     ++ match args options with
        | Some l => [(str "args", arrayObject l)]
        | None => []
        end
     ++ [(str "prependArgs", prependArgs options);
         (str "modifyHandler", modifyHandler options)]
     ++ match index options with
        | Some i => [(str "index", VString i)]
        | None => []
        end)
    [].

(** [options.index] as a value and as the property key it is used as. *)
Definition indexValue (options : Options) : value :=
  match index options with
  | Some i => VString i
  | None => VUndefined
  end.

Definition indexKey (options : Options) : jsstring :=
  match index options with
  | Some i => i
  | None => str "undefined"
  end.

(** [options.args || []] *)
Definition additionalArgs (options : Options) : list value :=
  match args options with
  | Some l => l
  | None => []
  end.

Section Route.

Context `{Host}.
Variable options : Options.

(** The [while (true)] loop of [iterateToEnd]. *)
Fixpoint drain (fuel : nat) (gen : value) : M value :=
  match fuel with
  | O => lift Unfinished
  | S fuel' =>
      next <- lift (Get gen (str "next")) ;;
      r <- call next gen [] ;;
      nextVal <- lift (await r) ;;
      _ <- (if truthy (onNextValue options) then
              done <- lift (Get nextVal (str "done")) ;;
              if negb (truthy done) then
                v <- lift (Get nextVal (str "value")) ;;
                x <- lift (await v) ;;
                call (onNextValue options) (optionsObject options) [x]
              else ret VUndefined
            else ret VUndefined) ;;
      done <- lift (Get nextVal (str "done")) ;;
      if truthy done then
        v <- lift (Get nextVal (str "value")) ;;
        lift (await v)
      else drain fuel' gen
  end.

Definition iterateToEnd (fuel : nat) (resultOrGenerator : value) : M value :=
  iterable <- lift (__isIterable resultOrGenerator) ;;
  if truthy iterable then drain fuel resultOrGenerator
  else ret resultOrGenerator.

(** [options.modifyHandler ? options.modifyHandler(current, key) : current] *)
Definition modify (current key : value) : M value :=
  if truthy (modifyHandler options)
  then call (modifyHandler options) (optionsObject options) [current; key]
  else ret current.

(** [part.args.map(a => a.value)] *)
Definition argumentValues (args : list value) : M (list value) :=
  mapM (fun a => lift (Get a (str "value"))) args.

(** [obj ? `${obj}.${part.identifier}` : `${part.identifier}`] *)
Definition extend (obj : option jsstring) (identifier : jsstring) : jsstring :=
  match obj with
  | Some (c :: o) => (c :: o) ++ str "." ++ identifier
  | _ => identifier
  end.

(** The [for] loop of [route] over the parts: the [current] and the [error]
    it ends with. *)
Fixpoint walk (fuel : nat) (obj : option jsstring) (current : value)
  (parts : list Part) : M (value * option value) :=
  match parts with
  | [] => ret (current, None)
  | part :: parts' =>
      let obj := extend obj (identifier part) in
      if negb (jstype_eqb (typeof current) TUndefined) then
        current <- modify current (VString (identifier part)) ;;
        own <- lift (hasOwnProperty current (identifier part)) ;;
        if own then
          match part with
          | FunctionPart _ args =>
              fn <- lift (Get current (identifier part)) ;;
              if jstype_eqb (typeof fn) TFunction then
                values <- argumentValues args ;;
                r <- call fn current
                       (if truthy (prependArgs options)
                        then additionalArgs options ++ values
                        else values ++ additionalArgs options) ;;
                resultOrGenerator <- lift (await r) ;;
                p <- iterateToEnd fuel resultOrGenerator ;;
                current <- lift (await p) ;;
                walk fuel (Some obj) current parts'
              else if jstype_eqb (typeof fn) TUndefined then
                ret (current, Some NOT_FOUND)
              else ret (current, Some (NOT_A_FUNCTION obj fn))
          | ObjectPart _ =>
              ref <- lift (Get current (identifier part)) ;;
              r <- (if jstype_eqb (typeof ref) TFunction
                    then call ref current (additionalArgs options)
                    else ret ref) ;;
              resultOrGenerator <- lift (await r) ;;
              p <- iterateToEnd fuel resultOrGenerator ;;
              current <- lift (await p) ;;
              walk fuel (Some obj) current parts'
          end
        else ret (current, Some NOT_FOUND)
      else ret (current, None)
  end.

(** The index step: the body of the inner async function of [finalResult]. *)
Definition indexStep (fuel : nat) (current : value) : M value :=
  current <- modify current (indexValue options) ;;
  member <- lift (Get current (indexKey options)) ;;
  resultOrGenerator <-
    (if jstype_eqb (typeof member) TFunction
     then fn <- lift (Get current (indexKey options)) ;;
          call fn current (additionalArgs options)
     else lift (Get current (indexKey options))) ;;
  p <- iterateToEnd fuel resultOrGenerator ;;
  lift (await p).

(** [const app = typeof _app === "function" ? _app() : _app] *)
Definition app (_app : value) : M value :=
  if jstype_eqb (typeof _app) TFunction
  then call _app VUndefined []
  else ret _app.

(** [const parts = expression ? analyzePath(expression, dicts) : []] *)
Definition parts (expression : jsstring) (dicts : list value) : M (list Part) :=
  match expression with
  | [] => ret []
  | _ => analyzePath expression dicts
  end.

(** [const finalResult = error ? error : hasOwnProperty(current,
    options.index) ? await (async () => { ... })() : current] *)
Definition finalResult (fuel : nat) (current : value) (error : option value)
  : M value :=
  match error with
  | Some e => ret e
  | None =>
      own <- lift (hasOwnProperty current (indexKey options)) ;;
      if own then
        p <- indexStep fuel current ;;
        lift (await p)
      else ret current
  end.

Definition route (fuel : nat) (_app : value) (expression : jsstring)
  (dicts : list value) : M value :=
  a <- app _app ;;
  ps <- parts expression dicts ;;
  ' (current, error) <- walk fuel None a ps ;;
  r <- finalResult fuel current error ;;
  lift (await r).

End Route.

(** ** The vocabulary of the specification *)

(** A bare identifier token: neither [true] nor [false], no number, and an
    identifier by [identifierRegex]. *)
Definition bareIdentifier (a : jsstring) : bool :=
  negb (JsString.eqb a (str "true") || JsString.eqb a (str "false"))
  && isNaN a && identifierRegex_test a.

(** The argument sources [dicts] are consulted in order for the token [a]
    and none of them matches: a function source answers something falsy, any
    other source has no own property [a].  [Some st'] is the state after the
    last of them. *)
Fixpoint skipped `{Host} (dicts : list value) (a : jsstring) (st : state)
  : option state :=
  match dicts with
  | [] => Some st
  | dict :: dicts' =>
      if jstype_eqb (typeof dict) TFunction then
        match call dict VUndefined [VString a] st with
        | (Returns val, st') => if truthy val then None else skipped dicts' a st'
        | _ => None
        end
      else
        match hasOwnProperty dict a with
        | Returns false => skipped dicts' a st
        | _ => None
        end
  end.

(** What [next()] returned, [r], is (once awaited) an iterator result that
    is not the last one, with the element [x] (once awaited). *)
Definition yields (r x : value) : Prop :=
  exists nextVal done x0,
    await r = Returns nextVal
    /\ Get nextVal (str "done") = Returns done /\ truthy done = false
    /\ Get nextVal (str "value") = Returns x0 /\ await x0 = Returns x.

(** What [next()] returned, [r], is (once awaited) the completion signal,
    with the terminal value [v] (once awaited). *)
Definition completes (r v : value) : Prop :=
  exists nextVal done v0,
    await r = Returns nextVal
    /\ Get nextVal (str "done") = Returns done /\ truthy done = true
    /\ Get nextVal (str "value") = Returns v0 /\ await v0 = Returns v.

(** The display path [obj] after the loop went through [parts]. *)
Definition accumulated (obj : option jsstring) (parts : list Part)
  : option jsstring :=
  fold_left (fun o part => Some (extend o (identifier part))) parts obj.

(** The arguments a step's member is called with, [values] being the values
    of the step's own arguments. *)
Definition stepArguments (options : Options) (part : Part) (values : list value)
  : list value :=
  match part with
  | ObjectPart _ => additionalArgs options
  | FunctionPart _ _ =>
      if truthy (prependArgs options)
      then additionalArgs options ++ values
      else values ++ additionalArgs options
  end.

(** [values] are the [value] members of the arguments [args], in order. *)
Definition valuesOf (args values : list value) : Prop :=
  Forall2 (fun a x => Get a (str "value") = Returns x) args values.

(** The state after one more call. *)
Definition called `{Host} (st : state) (w : World) (e : event) : state :=
  {| world := w; trace := trace st ++ [e] |}.

(** The module only adds calls to the trace: the state [st'] comes after the
    state [st]. *)
Definition extends `{Host} (st st' : state) : Prop :=
  exists t, trace st' = trace st ++ t.

Definition monotone `{Host} {A} (m : M A) : Prop :=
  forall st, extends st (snd (m st)).

(** The loop of [route] went through the steps [before] without an error
    and holds the current value [current], in the state [st'], the steps
    [rest] being left: the root is resolved and the expression is analyzed
    into [before ++ rest]. *)
Definition reaches `{Host} (options : Options) (fuel : nat) (_app : value)
  (expression : jsstring) (dicts : list value) (st : state)
  (before : list Part) (current : value) (rest : list Part) (st' : state)
  : Prop :=
  exists a st0 st1,
    app _app st = (Returns a, st0)
    /\ parts expression dicts st0 = (Returns (before ++ rest), st1)
    /\ walk options fuel None a before st1 = (Returns (current, None), st').

(** The display path at the step [part] that comes after the steps
    [before]. *)
Definition displayPath (before : list Part) (part : Part) : jsstring :=
  extend (accumulated None before) (identifier part).

(** [values] are the values of the step's own arguments: an object step has
    none. *)
Definition partValues (part : Part) (values : list value) : Prop :=
  match part with
  | ObjectPart _ => values = []
  | FunctionPart _ args => valuesOf args values
  end.

(** The step [part] is entered with [current], which is not [undefined],
    and its own-property check is applied to [current'], which is what
    [modifyHandler] made of [current] (or [current] when there is none). *)
Definition checked `{Host} (options : Options) (current : value) (part : Part)
  (st : state) (current' : value) (st' : state) : Prop :=
  typeof current <> TUndefined
  /\ modify options current (VString (identifier part)) st = (Returns current', st').

(** What a step does with what its member gave: it is awaited, drained when
    it is a sequence, and the loop goes on with the result. *)
Definition settle `{Host} (options : Options) (fuel : nat) (obj : jsstring)
  (rest : list Part) (r : value) : M (value * option value) :=
  resultOrGenerator <- lift (await r) ;;
  p <- iterateToEnd options fuel resultOrGenerator ;;
  current <- lift (await p) ;;
  walk options fuel (Some obj) current rest.

(** What [route] does after the loop. *)
Definition finish `{Host} (options : Options) (fuel : nat)
  (loop : M (value * option value)) : M value :=
  ' (current, error) <- loop ;;
  r <- finalResult options fuel current error ;;
  lift (await r).

(** ** A host for the examples *)

Module Examples.

(** The string of a value, where the platform's conversion is a matter of
    the value alone: primitives, of the numbers the integers below ten to
    the 21, which are printed in full, the zeros, [NaN] and the
    infinities. *)
Definition ToString (v : value) : option jsstring :=
  match v with
  | VUndefined => Some (str "undefined")
  | VNull => Some (str "null")
  | VBoolean b => Some (if b then str "true" else str "false")
  | VString s => Some s
  | VNumber NaN => Some (str "NaN")
  | VNumber (Infinity negative) =>
      Some (if negative then str "-Infinity" else str "Infinity")
  | VNumber NegativeZero => Some (str "0")
  | VNumber (Finite q) =>
      if Pos.eqb (Qden q) 1 && negb (10 ^ 21 <=? Z.abs (Qnum q))
      then Some (str (NilZero.string_of_int (Z.to_int (Qnum q))))
      else None
  | _ => None
  end.

Definition greet : fid := 0%nat.
Definition resolver : fid := 1%nat.
Definition echo : fid := 2%nat.
Definition next : fid := 3%nat.
Definition hook : fid := 4%nat.

(** An iterator result, [{ value, done }]. *)
Definition iterResult (v : value) (done : bool) : value :=
  VObject [(str "value", v); (str "done", VBoolean done)] [].

(** The functions of the examples; the state counts the calls of [next].
    - [greet] is [(name) => "Hello, " + name];
    - [resolver] is an argument source, [(name) => name === "x" ? { value: 10 }
      : undefined];
    - [echo] is [(x) => x];
    - [next] is the [next] of a generator that yields the strings [a] and
      [b] and returns the string [v];
    - [hook] returns nothing.
    [greet] has no result here on an argument whose string [ToString] does
    not give. *)
Definition behaviour (f : fid) (this : value) (args : list value) (w : nat)
  : completion value * nat :=
  match f with
  | 0%nat =>
      (match ToString (nth 0 args VUndefined) with
       | Some s => Returns (VString (str "Hello, " ++ s))
       | None => Unfinished
       end, w)
  | 1%nat =>
      (match nth 0 args VUndefined with
       | VString s =>
           if JsString.eqb s (str "x")
           then Returns (valueObject (VNumber (Finite 10)))
           else Returns VUndefined
       | _ => Returns VUndefined
       end, w)
  | 2%nat => (Returns (nth 0 args VUndefined), w)
  | 3%nat =>
      (match w with
       | 0%nat => Returns (iterResult (VString (str "a")) false)
       | 1%nat => Returns (iterResult (VString (str "b")) false)
       | _ => Returns (iterResult (VString (str "v")) true)
       end, S w)
  | _ => (Returns VUndefined, w)
  end.

#[export] Instance host : Host := {| World := nat; invoke := behaviour |}.

Definition start : state := {| world := 0%nat; trace := [] |}.

(** A generator object: its [next] is inherited. *)
Definition generator : value := VObject [] [(str "next", VFunction next [])].

(** The roots, sources and options of the examples. *)
Definition pingRoot : value := VObject [(str "ping", VFunction hook [])] [].
Definition undefinedMember : value := VObject [(str "a", VUndefined)] [].
Definition greetRoot : value := VObject [(str "greet", VFunction greet [])] [].
Definition echoRoot : value := VObject [(str "g", VFunction echo [])] [].
Definition numberMember : value :=
  VObject [(str "a", VObject [(str "b", VNumber (Finite 5))] [])] [].
Definition emptyMember : value :=
  VObject [(str "a", VObject [(str "b", VObject [] [])] [])] [].
Definition x1 : value := VObject [(str "x", VNumber (Finite 1))] [].
Definition x2 : value := VObject [(str "x", VNumber (Finite 2))] [].
Definition streaming : Options :=
  {| onNextValue := VFunction hook []; args := Some [generator];
     prependArgs := VUndefined; modifyHandler := VUndefined; index := None |}.

(** The double quote, and the expression [greet("World")]. *)
Definition quote : jsstring := [34%N].
Definition greetQuoted : jsstring :=
  str "greet(" ++ quote ++ str "World" ++ quote ++ str ")".

End Examples.

(** ** More vocabulary *)

(** No code unit of [s] is [c]. *)
Definition free (c : codeunit) (s : jsstring) : bool :=
  forallb (fun d => negb (N.eqb d c)) s.

(** The value [v] is no sequence for [iterateToEnd]: it has no callable
    [next]. *)
Definition notIterable (v : value) : Prop :=
  exists y, __isIterable v = Returns y /\ truthy y = false.

(** The value [v] has a callable [then]: [await] calls it, to take what it
    is told as the value.  Of such values the embedding has the promises,
    of which [await] takes the settled state; the statements below that
    say what an awaited value is leave the other ones out. *)
Definition thenable (v : value) : bool :=
  match v with
  | VObject _ _ | VFunction _ _ | VRoutingError _ _ =>
      match Get v (str "then") with
      | Returns m => jstype_eqb (typeof m) TFunction
      | _ => false
      end
  | _ => false
  end.

(** The calls of a drain of the sequence [gen] with the elements [xs], when
    [onNextValue] is the function [h]: [next], then [h] with the element,
    for each element, and a last [next]. *)
Definition drainCalls (n : fid) (gen : value) (h : fid) (this : value)
  (xs : list value) : list event :=
  flat_map (fun x => [Call n gen []; Call h this [x]]) xs ++ [Call n gen []].

Section Sequences.
Context `{Host}.

(** From the host state [w], the [next] function [n] of [gen] gives the
    elements [xs] and then completes with [v], in the state [w'];
    [between x w1 w2] is what happens to the host state between an element
    [x] and the following [next]. *)
Inductive produces (n : fid) (gen : value)
  (between : value -> World -> World -> Prop)
  : World -> list value -> value -> World -> Prop :=
| produces_done w r w' v :
    invoke n gen [] w = (Returns r, w') ->
    completes r v ->
    produces n gen between w [] v w'
| produces_more w r w1 x w2 xs v w' :
    invoke n gen [] w = (Returns r, w1) ->
    yields r x ->
    between x w1 w2 ->
    produces n gen between w2 xs v w' ->
    produces n gen between w (x :: xs) v w'.

(** The host state after [onNextValue], the function [h], was called with
    an element. *)
Definition hooked (h : fid) (this : value) (x : value) (w1 w2 : World) : Prop :=
  exists u, invoke h this [x] w1 = (Returns u, w2).

(** No [onNextValue]: nothing happens between two [next]. *)
Definition unhooked (x : value) (w1 w2 : World) : Prop := w2 = w1.

End Sequences.

(** ** A second host for the examples *)

Module Faults.

Definition factory : fid := 0%nat.
Definition failing : fid := 1%nat.

(** The functions of the examples:
    - [factory] is an async factory, [async () => ({ a: 1 })]: it returns a
      promise that is fulfilled with the root;
    - [failing] is [() => { throw "boom" }]. *)
Definition behaviour (f : fid) (this : value) (args : list value) (w : unit)
  : completion value * unit :=
  match f with
  | 0%nat =>
      (Returns (VPromise true (VObject [(str "a", VNumber (Finite 1))] [])), w)
  | 1%nat => (Throws (Thrown (VString (str "boom"))), w)
  | _ => (Returns VUndefined, w)
  end.

#[export] Instance host : Host := {| World := unit; invoke := behaviour |}.

Definition start : state := {| world := tt; trace := [] |}.

End Faults.

(** * Proofs *)

Ltac norm := unfold bind, ret, lift; cbn beta iota.

(** ** The monad and the platform's operations *)

Section Laws.
Context `{Host}.

Lemma bind_returns {A B} (m : M A) (k : A -> M B) st a st' :
  m st = (Returns a, st') -> bind m k st = k a st'.
Proof. intros E. unfold bind. now rewrite E. Qed.

Lemma bind_throws {A B} (m : M A) (k : A -> M B) st e st' :
  m st = (Throws e, st') -> bind m k st = (Throws e, st').
Proof. intros E. unfold bind. now rewrite E. Qed.

Lemma call_function f own this args st r w :
  invoke f this args (world st) = (r, w) ->
  call (VFunction f own) this args st = (r, called st w (Call f this args)).
Proof. intros E. unfold call. now rewrite E. Qed.

Lemma hasOwnProperty_not_object obj prop :
  typeof obj <> TObject -> hasOwnProperty obj prop = Returns false.
Proof.
  intros T. unfold hasOwnProperty.
  destruct (typeof obj); try reflexivity. congruence.
Qed.

Lemma await_idem v x : await v = Returns x -> await x = Returns x.
Proof.
  induction v; cbn; intros E; try (injection E as <-; reflexivity).
  destruct fulfilled; [auto | discriminate].
Qed.

Lemma await_not_object v : typeof v <> TObject -> await v = Returns v.
Proof. destruct v; cbn; congruence. Qed.

Lemma extends_refl st : extends st st.
Proof. exists []. now rewrite app_nil_r. Qed.

Lemma extends_trans st1 st2 st3 :
  extends st1 st2 -> extends st2 st3 -> extends st1 st3.
Proof.
  intros [t E] [u F]. exists (t ++ u). now rewrite F, E, app_assoc.
Qed.

Lemma monotone_ret {A} (a : A) : monotone (ret a).
Proof. intros st. apply extends_refl. Qed.

Lemma monotone_lift {A} (c : completion A) : monotone (lift c).
Proof. intros st. apply extends_refl. Qed.

Lemma monotone_bind {A B} (m : M A) (k : A -> M B) :
  monotone m -> (forall a, monotone (k a)) -> monotone (bind m k).
Proof.
  intros Hm Hk st. unfold bind. specialize (Hm st).
  destruct (m st) as [[a | e |] st']; cbn in *; auto.
  eapply extends_trans; [exact Hm | apply Hk].
Qed.

Lemma monotone_call callee this args : monotone (call callee this args).
Proof.
  intros st. destruct callee; try apply extends_refl.
  cbn. destruct (invoke f this args (world st)). cbn. now eexists.
Qed.

Lemma monotone_mapM {A B} (f : A -> M B) l :
  (forall a, monotone (f a)) -> monotone (mapM f l).
Proof.
  intros Hf. induction l; cbn [mapM].
  - apply monotone_ret.
  - apply monotone_bind; [apply Hf | intros b].
    apply monotone_bind; [exact IHl | intros; apply monotone_ret].
Qed.

End Laws.

(** ** The trace only grows *)

Ltac mono :=
  repeat first
    [ apply monotone_ret | apply monotone_lift | apply monotone_call
    | assumption
    | apply monotone_bind; [ | intros ? ]
    | match goal with
      | |- monotone (if ?b then _ else _) => destruct b
      | |- monotone (match ?x with _ => _ end) => destruct x
      end ].

Section Monotone.
Context `{Host}.
Variable options : Options.

Lemma monotone_drain fuel gen : monotone (drain options fuel gen).
Proof. induction fuel; cbn [drain]; mono. Qed.

Lemma monotone_iterateToEnd fuel r : monotone (iterateToEnd options fuel r).
Proof. unfold iterateToEnd. pose proof (monotone_drain fuel r). mono. Qed.

Lemma monotone_modify c k : monotone (modify options c k).
Proof. unfold modify. mono. Qed.

Lemma monotone_argumentValues args : monotone (argumentValues args).
Proof. apply monotone_mapM. intros. mono. Qed.

Lemma monotone_walk fuel parts : forall obj current,
  monotone (walk options fuel obj current parts).
Proof.
  induction parts as [|part parts IH]; intros; cbn [walk].
  - mono.
  - pose proof monotone_modify. pose proof monotone_iterateToEnd.
    pose proof monotone_argumentValues.
    destruct (negb _); [|mono].
    apply monotone_bind; [apply monotone_modify|intros c].
    apply monotone_bind; [mono|intros own].
    destruct own; [|mono].
    destruct part.
    + repeat (apply monotone_bind; [try apply monotone_iterateToEnd; mono | intros ?]).
      apply IH.
    + apply monotone_bind; [mono|intros fn].
      destruct (jstype_eqb (typeof fn) TFunction); [|mono].
      repeat (apply monotone_bind;
              [first [apply monotone_iterateToEnd | apply monotone_argumentValues | mono] | intros ?]).
      apply IH.
Qed.

Lemma monotone_settle fuel obj rest r :
  monotone (settle options fuel obj rest r).
Proof.
  unfold settle.
  apply monotone_bind; [apply monotone_lift | intros g].
  apply monotone_bind; [apply monotone_iterateToEnd | intros p].
  apply monotone_bind; [apply monotone_lift | intros c].
  apply monotone_walk.
Qed.

End Monotone.

(** ** Decoding and splitting *)

Section Decoding.

Lemma cmap_id {A} (c : completion (list A)) : cmap (List.app []) c = c.
Proof. now destruct c. Qed.

Lemma cmap_cmap {A B C} (f : A -> B) (g : B -> C) c :
  cmap g (cmap f c) = cmap (fun a => g (f a)) c.
Proof. now destruct c. Qed.

Lemma Decode_skip : forall s k, Decode k s = Decode 0 (skipn k s).
Proof.
  induction s as [|c t IH]; intros [|k]; try reflexivity.
  cbn [Decode skipn]. apply IH.
Qed.

Lemma continuation_app n : forall acc t s cp,
  URI.continuation n acc t = Some cp ->
  (3 * n <= List.length t)%nat /\ URI.continuation n acc (t ++ s) = Some cp.
Proof.
  induction n as [|n IH]; intros acc t s cp E; cbn [URI.continuation] in *.
  - split; [lia | exact E].
  - destruct t as [|p [|h1 [|h2 t]]]; try discriminate.
    cbn [List.app]. destruct (N.eqb p URI.percent); try discriminate.
    destruct (URI.ParseHexOctet h1 h2) as [b|]; try discriminate.
    destruct (N.eqb (N.land b 192) 128); try discriminate.
    destruct (IH _ _ s _ E) as [L C]. split; [cbn [List.length]; lia | exact C].
Qed.

Lemma decodeEscape_app t s d k :
  URI.decodeEscape t = Some (d, k) ->
  (k <= List.length t)%nat /\ URI.decodeEscape (t ++ s) = Some (d, k).
Proof.
  unfold URI.decodeEscape. destruct t as [|h1 [|h2 t]]; try discriminate.
  cbn [List.app]. destruct (URI.ParseHexOctet h1 h2) as [b|]; try discriminate.
  destruct (URI.leadingOnes b) as [|[|n]].
  - intros E. injection E as <- <-. split; [cbn; lia | reflexivity].
  - discriminate.
  - destruct (URI.continuation (S n) _ t) as [cp|] eqn:C; try discriminate.
    destruct (continuation_app _ _ _ s _ C) as [L C']. rewrite C'.
    destruct (URI.validCodePoint _ cp); try discriminate.
    intros E. injection E as <- <-. split; [cbn [List.length]; lia | reflexivity].
Qed.

Lemma Decode_app : forall pre k pre' s,
  (k <= List.length pre)%nat ->
  Decode k pre = Returns pre' ->
  Decode k (pre ++ s) = cmap (List.app pre') (Decode 0 s).
Proof.
  induction pre as [|c t IH]; intros k pre' s L E.
  - destruct k; [|cbn in L; lia]. injection E as <-. cbn [List.app].
    now rewrite cmap_id.
  - cbn [List.app Decode] in *. destruct k as [|k].
    + destruct (N.eqb c URI.percent).
      * destruct (URI.decodeEscape t) as [[d k]|] eqn:D; try discriminate.
        destruct (decodeEscape_app _ s _ _ D) as [Lk D']. rewrite D'.
        destruct (Decode k t) as [r| |] eqn:R; try discriminate.
        injection E as <-. rewrite (IH _ _ s Lk R), cmap_cmap.
        destruct (Decode 0 s); cbn; try reflexivity. now rewrite app_assoc.
      * destruct (Decode 0 t) as [r| |] eqn:R; try discriminate.
        injection E as <-. rewrite (IH _ _ s (Nat.le_0_l _) R), cmap_cmap.
        reflexivity.
    + apply IH; [cbn in L; lia | exact E].
Qed.

Lemma decodeURI_app pre pre' s :
  decodeURI pre = Returns pre' ->
  decodeURI (pre ++ s) = cmap (List.app pre') (decodeURI s).
Proof. apply Decode_app, Nat.le_0_l. Qed.

Lemma decodeURI_escape h1 h2 b post :
  URI.ParseHexOctet h1 h2 = Some b -> (b < 128)%N ->
  decodeURI (URI.percent :: h1 :: h2 :: post)
  = cmap (List.app (if URI.preserved b then [URI.percent; h1; h2] else [b]))
      (decodeURI post).
Proof.
  intros P L. unfold decodeURI. cbn [Decode]. rewrite N.eqb_refl.
  unfold URI.decodeEscape. rewrite P. unfold URI.leadingOnes.
  apply N.ltb_lt in L. rewrite L. reflexivity.
Qed.

End Decoding.

Lemma pathParts_leading_dot p : pathParts (chr "." :: p) = [chr "." :: p].
Proof. reflexivity. Qed.

Lemma indexOf_range c s : -1 <= indexOf c s.
Proof.
  induction s as [|d s IH]; cbn [indexOf]; [lia|].
  destruct (N.eqb d c); [lia|]. destruct (indexOf c s <? 0) eqn:E; [lia|].
  apply Z.ltb_ge in E. lia.
Qed.

Lemma pathParts_split c p :
  c <> chr "." -> pathParts (c :: p) = split (chr ".") (c :: p).
Proof.
  intros N. unfold pathParts. cbn [indexOf].
  apply N.eqb_neq in N. rewrite N.
  pose proof (indexOf_range (chr ".") p).
  destruct (indexOf (chr ".") p <? 0) eqn:E; [reflexivity|].
  apply Z.ltb_ge in E.
  destruct (indexOf (chr ".") p + 1 =? 0) eqn:F; [|reflexivity].
  apply Z.eqb_eq in F. lia.
Qed.

(** ** Arguments *)

Section Arguments.
Context `{Host}.

Lemma lookupDicts_skipped pre : forall post a st st1,
  skipped pre a st = Some st1 ->
  lookupDicts (pre ++ post) a st = lookupDicts post a st1.
Proof.
  induction pre as [|dict pre IH]; intros post a st st1 S.
  - now injection S as <-.
  - cbn [skipped] in S. cbn [List.app lookupDicts].
    destruct (jstype_eqb (typeof dict) TFunction).
    + norm. destruct (call dict VUndefined [VString a] st) as [[val | |] st'];
        try discriminate.
      destruct (truthy val); [discriminate | now apply IH].
    + norm. destruct (hasOwnProperty dict a) as [[|] | |]; try discriminate.
      now apply IH.
Qed.

Lemma getArgumentValue_bare dicts a :
  bareIdentifier a = true -> getArgumentValue dicts a = lookupDicts dicts a.
Proof.
  unfold bareIdentifier, getArgumentValue. intros B.
  apply andb_prop in B as [B R]. apply andb_prop in B as [B N].
  apply negb_true_iff in B. now rewrite B, N, R.
Qed.

Lemma argumentValues_valuesOf args : forall values st,
  valuesOf args values ->
  argumentValues args st = (Returns values, st).
Proof.
  unfold argumentValues. induction args as [|a args IH]; intros values st V;
    inversion V as [|? x ? xs G V']; subst; cbn [mapM].
  - reflexivity.
  - rewrite (bind_returns _ _ st x st) by (unfold lift; now rewrite G).
    now rewrite (bind_returns _ _ _ _ _ (IH _ st V')).
Qed.

End Arguments.


(** ** The loop *)

Section Walk.
Context `{Host}.
Variable options : Options.
Variable fuel : nat.

Lemma walk_undefined obj parts st :
  walk options fuel obj VUndefined parts st = (Returns (VUndefined, None), st).
Proof. now destruct parts. Qed.

Lemma walk_app before : forall obj current st c st' after,
  walk options fuel obj current before st = (Returns (c, None), st') ->
  walk options fuel obj current (before ++ after) st
  = walk options fuel (accumulated obj before) c after st'.
Proof.
  induction before as [|part before IH]; intros obj current st c st' after W.
  - cbn in W. injection W as <- <-. reflexivity.
  - cbn [List.app walk accumulated fold_left] in *.
    fold (accumulated (Some (extend obj (identifier part))) before).
    destruct (negb (jstype_eqb (typeof current) TUndefined)) eqn:U.
    + unfold bind in *.
      destruct (modify options current _ st) as [[c1| |] s1]; try discriminate.
      destruct (lift (hasOwnProperty c1 (identifier part)) s1)
        as [[[|]| |] s2]; try discriminate.
      destruct part as [id|id args].
      * destruct (lift (Get c1 _) s2) as [[ref| |] s3]; try discriminate.
        destruct ((if jstype_eqb (typeof ref) TFunction
                   then call ref c1 (additionalArgs options) else ret ref) s3)
          as [[r| |] s4]; try discriminate.
        destruct (lift (await r) s4) as [[g| |] s5]; try discriminate.
        destruct (iterateToEnd options fuel g s5) as [[p| |] s6]; try discriminate.
        destruct (lift (await p) s6) as [[c2| |] s7]; try discriminate.
        now apply IH.
      * destruct (lift (Get c1 _) s2) as [[fn| |] s3]; try discriminate.
        destruct (jstype_eqb (typeof fn) TFunction).
        -- destruct (argumentValues args s3) as [[vs| |] s4]; try discriminate.
           destruct (call fn c1 _ s4) as [[r| |] s5]; try discriminate.
           destruct (lift (await r) s5) as [[g| |] s6]; try discriminate.
           destruct (iterateToEnd options fuel g s6) as [[p| |] s7]; try discriminate.
           destruct (lift (await p) s7) as [[c2| |] s8]; try discriminate.
           now apply IH.
        -- destruct (jstype_eqb (typeof fn) TUndefined); discriminate.
    + cbn in W. injection W as <- <-.
      apply negb_false_iff in U. destruct current; try discriminate.
      symmetry. apply walk_undefined.
Qed.

Lemma route_reaches _app expression dicts st before current rest st' :
  reaches options fuel _app expression dicts st before current rest st' ->
  route options fuel _app expression dicts st
  = finish options fuel
      (walk options fuel (accumulated None before) current rest) st'.
Proof.
  intros (a & st0 & st1 & A & P & W).
  unfold route, finish.
  rewrite (bind_returns _ _ _ _ _ A), (bind_returns _ _ _ _ _ P).
  unfold bind at 1. rewrite (walk_app _ _ _ _ _ _ _ W). reflexivity.
Qed.

Lemma finish_error loop st c e st' :
  loop st = (Returns (c, Some e), st') ->
  await e = Returns e ->
  finish options fuel loop st = (Returns e, st').
Proof.
  intros L A. unfold finish. rewrite (bind_returns _ _ _ _ _ L).
  cbn [finalResult]. norm. now rewrite A.
Qed.

Lemma finish_throws loop st e st' :
  loop st = (Throws e, st') -> finish options fuel loop st = (Throws e, st').
Proof. intros L. unfold finish. now rewrite (bind_throws _ _ _ _ _ L). Qed.

(** The step whose own-property check says no. *)
Lemma walk_missing obj current part rest st current' st' :
  checked options current part st current' st' ->
  hasOwnProperty current' (identifier part) = Returns false ->
  walk options fuel obj current (part :: rest) st
  = (Returns (current', Some NOT_FOUND), st').
Proof.
  intros [U Mo] O. cbn [walk].
  destruct (typeof current) eqn:T; try congruence; cbn [jstype_eqb negb];
    rewrite (bind_returns _ _ _ _ _ Mo); norm; now rewrite O.
Qed.

(** The object step whose member is there. *)
Lemma walk_object_step obj current id rest st current' st' ref :
  checked options current (ObjectPart id) st current' st' ->
  hasOwnProperty current' id = Returns true ->
  Get current' id = Returns ref ->
  walk options fuel obj current (ObjectPart id :: rest) st
  = (r <- (if jstype_eqb (typeof ref) TFunction
           then call ref current' (additionalArgs options)
           else ret ref) ;;
     settle options fuel (extend obj id) rest r) st'.
Proof.
  intros [U Mo] O G. cbn [walk identifier] in *.
  destruct (typeof current) eqn:T; try congruence; cbn [jstype_eqb negb];
    rewrite (bind_returns _ _ _ _ _ Mo); norm; now rewrite O, G.
Qed.

(** The function step whose member is there. *)
Lemma walk_function_step obj current id args rest st current' st' fn :
  checked options current (FunctionPart id args) st current' st' ->
  hasOwnProperty current' id = Returns true ->
  Get current' id = Returns fn ->
  walk options fuel obj current (FunctionPart id args :: rest) st
  = (if jstype_eqb (typeof fn) TFunction then
       values <- argumentValues args ;;
       r <- call fn current'
              (stepArguments options (FunctionPart id args) values) ;;
       settle options fuel (extend obj id) rest r
     else if jstype_eqb (typeof fn) TUndefined
          then ret (current', Some NOT_FOUND)
          else ret (current', Some (NOT_A_FUNCTION (extend obj id) fn))) st'.
Proof.
  intros [U Mo] O G. cbn [walk identifier] in *.
  destruct (typeof current) eqn:T; try congruence; cbn [jstype_eqb negb];
    rewrite (bind_returns _ _ _ _ _ Mo); norm; rewrite O, G;
    destruct (jstype_eqb (typeof fn) TFunction); reflexivity.
Qed.

Lemma settle_undefined obj rest st :
  settle options fuel obj rest VUndefined st = (Throws TypeError, st).
Proof. reflexivity. Qed.

Lemma settle_plain obj rest r st :
  await r = Returns r -> __isIterable r = Returns VUndefined ->
  settle options fuel obj rest r st = walk options fuel (Some obj) r rest st.
Proof.
  intros A I. unfold settle, iterateToEnd. norm. rewrite A, I. cbn [truthy].
  now rewrite A.
Qed.

Lemma finish_plain loop st c st' :
  loop st = (Returns (c, None), st') ->
  typeof c <> TObject ->
  finish options fuel loop st = (Returns c, st').
Proof.
  intros L T. unfold finish, finalResult. rewrite (bind_returns _ _ _ _ _ L).
  norm. rewrite (hasOwnProperty_not_object _ _ T).
  now rewrite (await_not_object _ T).
Qed.

End Walk.

Section Paths.

Lemma accumulated_join l : forall o,
  o <> [] ->
  accumulated (Some o) l = Some (join (str ".") (o :: List.map identifier l)).
Proof.
  induction l as [|p l IH]; intros o N; [reflexivity|].
  cbn [accumulated fold_left List.map]. fold (accumulated (Some (extend (Some o) (identifier p))) l).
  destruct o as [|c o]; [congruence|]. cbn [extend].
  rewrite IH by discriminate.
  f_equal. destruct l as [|q l]; cbn [List.map join].
  - reflexivity.
  - cbn [List.app]. f_equal. now rewrite <- !app_assoc.
Qed.

Lemma accumulated_snoc o l p :
  accumulated o (l ++ [p]) = Some (extend (accumulated o l) (identifier p)).
Proof. unfold accumulated. now rewrite fold_left_app. Qed.

Lemma displayPath_join before part :
  match before ++ [part] with
  | first :: _ => identifier first <> []
  | [] => True
  end ->
  displayPath before part
  = join (str ".") (List.map identifier (before ++ [part])).
Proof.
  intros N.
  assert (E : accumulated None (before ++ [part])
              = Some (join (str ".") (List.map identifier (before ++ [part])))).
  { destruct (before ++ [part]) as [|first l] eqn:L.
    - now destruct before.
    - cbn [accumulated fold_left extend List.map].
      now apply accumulated_join. }
  rewrite accumulated_snoc in E. now injection E.
Qed.

End Paths.


Section Draining.
Context `{Host}.
Variable options : Options.

Lemma drain_yield fuel gen n nown h hown st r w1 x u w2 :
  Get gen (str "next") = Returns (VFunction n nown) ->
  onNextValue options = VFunction h hown ->
  invoke n gen [] (world st) = (Returns r, w1) ->
  yields r x ->
  invoke h (optionsObject options) [x] w1 = (Returns u, w2) ->
  drain options (S fuel) gen st
  = drain options fuel gen
      (called (called st w1 (Call n gen []))
         w2 (Call h (optionsObject options) [x])).
Proof.
  intros G O I (nextVal & done & x0 & A & D & F & V & X) J.
  cbn [drain]. norm. rewrite G, O. cbn [truthy].
  rewrite (call_function _ _ _ _ _ _ _ I), A, D, F. cbn [negb].
  rewrite V, X.
  rewrite (call_function _ hown _ _ (called st w1 (Call n gen [])) _ _ J).
  reflexivity.
Qed.

Lemma drain_complete fuel gen n nown st r w1 v :
  Get gen (str "next") = Returns (VFunction n nown) ->
  invoke n gen [] (world st) = (Returns r, w1) ->
  completes r v ->
  drain options (S fuel) gen st = (Returns v, called st w1 (Call n gen [])).
Proof.
  intros G I (nextVal & done & v0 & A & D & T & V & X).
  cbn [drain]. norm. rewrite G.
  rewrite (call_function _ _ _ _ _ _ _ I), A, D, T. cbn [negb].
  rewrite V, X. now destruct (truthy (onNextValue options)).
Qed.

End Draining.


(** ** The claims *)

(** C1.  The claim is that [route] never rejects, whatever the members and
    the invocations of the steps produce.  The code breaks it: when the
    function an object step invokes returns [undefined], [__isIterable]
    reads [next] of [undefined], and the call of [route] is rejected with a
    [TypeError]. *)
Theorem route_rejects_when_invocation_returns_undefined
  `{Host} options fuel _app expression dicts st before current id rest st1
  current' st2 f fown w :
  reaches options fuel _app expression dicts st before current
    (ObjectPart id :: rest) st1 ->
  checked options current (ObjectPart id) st1 current' st2 ->
  hasOwnProperty current' id = Returns true ->
  Get current' id = Returns (VFunction f fown) ->
  invoke f current' (additionalArgs options) (world st2)
  = (Returns VUndefined, w) ->
  route options fuel _app expression dicts st
  = (Throws TypeError,
     called st2 w (Call f current' (additionalArgs options))).
Proof.
  intros R C O G I. rewrite (route_reaches _ _ _ _ _ _ _ _ _ _ R).
  apply finish_throws. rewrite (walk_object_step _ _ _ _ _ _ _ _ _ _ C O G).
  cbn [typeof jstype_eqb].
  rewrite (bind_returns _ _ _ _ _ (call_function _ _ _ _ _ _ _ I)).
  apply settle_undefined.
Qed.

(** The expression [ping] against [{ ping: () => undefined }]. *)
Lemma route_rejects_when_invocation_returns_undefined_witness :
  route noOptions 0 Examples.pingRoot (str "ping") [] Examples.start
  = (Throws TypeError,
     called Examples.start 0%nat (Call Examples.hook Examples.pingRoot [])).
Proof.
  apply (route_rejects_when_invocation_returns_undefined
           noOptions 0 Examples.pingRoot (str "ping") [] Examples.start
           [] Examples.pingRoot (str "ping") [] Examples.start
           Examples.pingRoot Examples.start Examples.hook [] 0%nat).
  - exists Examples.pingRoot, Examples.start, Examples.start.
    repeat split; vm_compute; reflexivity.
  - split; [discriminate | reflexivity].
  - reflexivity.
  - reflexivity.
  - reflexivity.
Defined.

(** C2.  The claim is that an object step whose member is an own property
    holding [undefined] stops the walk silently.  The code breaks it: the
    member is handed to [iterateToEnd], whose [__isIterable] reads [next] of
    [undefined], and the call of [route] is rejected with a [TypeError],
    before [current] can become [undefined]. *)
Theorem route_rejects_on_undefined_member
  `{Host} options fuel _app expression dicts st before current id rest st1
  current' st2 :
  reaches options fuel _app expression dicts st before current
    (ObjectPart id :: rest) st1 ->
  checked options current (ObjectPart id) st1 current' st2 ->
  hasOwnProperty current' id = Returns true ->
  Get current' id = Returns VUndefined ->
  route options fuel _app expression dicts st = (Throws TypeError, st2).
Proof.
  intros R C O G. rewrite (route_reaches _ _ _ _ _ _ _ _ _ _ R).
  apply finish_throws. rewrite (walk_object_step _ _ _ _ _ _ _ _ _ _ C O G).
  reflexivity.
Qed.

(** The expression [a.b] against [{ a: undefined }]. *)
Lemma route_rejects_on_undefined_member_witness :
  route noOptions 0 Examples.undefinedMember (str "a.b") [] Examples.start
  = (Throws TypeError, Examples.start).
Proof.
  apply (route_rejects_on_undefined_member
           noOptions 0 Examples.undefinedMember (str "a.b") [] Examples.start
           [] Examples.undefinedMember (str "a") [ObjectPart (str "b")]
           Examples.start Examples.undefinedMember).
  - exists Examples.undefinedMember, Examples.start, Examples.start.
    repeat split; vm_compute; reflexivity.
  - split; [discriminate | reflexivity].
  - reflexivity.
  - reflexivity.
Defined.

(** C3, as amended.  Routing the expression [greet(World)], the argument
    written as a bare token, against the root [{ greet: (name) => "Hello, "
    + name }], with no extra arguments and no index, calls [greet] with the
    string [World] and returns what it returns, the string [Hello, World]. *)
Theorem greet_bare_token `{Host} fuel f fown st w :
  invoke f (VObject [(str "greet", VFunction f fown)] [])
    [VString (str "World")] (world st)
  = (Returns (VString (str "Hello, World")), w) ->
  route noOptions fuel (VObject [(str "greet", VFunction f fown)] [])
    (str "greet(World)") [] st
  = (Returns (VString (str "Hello, World")),
     called st w
       (Call f (VObject [(str "greet", VFunction f fown)] [])
          [VString (str "World")])).
Proof.
  intros I. set (root := VObject _ _) in *.
  assert (R : reaches noOptions fuel root (str "greet(World)") [] st []
                root [FunctionPart (str "greet")
                        [valueObject (VString (str "World"))]] st).
  { exists root, st, st. repeat split. }
  assert (C : checked noOptions root
                (FunctionPart (str "greet")
                   [valueObject (VString (str "World"))]) st root st).
  { split; [discriminate | reflexivity]. }
  rewrite (route_reaches _ _ _ _ _ _ _ _ _ _ R).
  rewrite (finish_plain noOptions fuel _ st (VString (str "Hello, World"))
             (called st w (Call f root [VString (str "World")])));
    [reflexivity | | discriminate].
  rewrite (walk_function_step _ _ _ _ _ _ _ _ _ _ (VFunction f fown) C);
    [| reflexivity | reflexivity].
  cbn [typeof jstype_eqb].
  rewrite (bind_returns _ _ _ [VString (str "World")] st) by reflexivity.
  rewrite (bind_returns _ _ _ _ _ (call_function _ _ _ _ _ _ _ I)).
  reflexivity.
Qed.

Lemma greet_bare_token_witness :
  route noOptions 0 Examples.greetRoot (str "greet(World)") [] Examples.start
  = (Returns (VString (str "Hello, World")),
     called Examples.start 0%nat
       (Call Examples.greet Examples.greetRoot [VString (str "World")])).
Proof.
  apply (greet_bare_token 0 Examples.greet [] Examples.start 0%nat).
  reflexivity.
Defined.

(** C3, as it is written, fails: the token ["World"], quotes included, is
    no identifier, its Argument is an error with no value, and [greet] is
    called with [undefined]. *)
Lemma greet_quoted_token :
  route noOptions 0 Examples.greetRoot Examples.greetQuoted [] Examples.start
  = (Returns (VString (str "Hello, undefined")),
     called Examples.start 0%nat
       (Call Examples.greet Examples.greetRoot [VUndefined]))
  /\ VString (str "Hello, undefined") <> VString (str "Hello, World").
Proof. split; [vm_compute; reflexivity | discriminate]. Qed.

(** C4, as amended.  Analysis first decodes the path with [decodeURI], then
    splits what it decoded: an escape [%XX] of an ASCII character, anywhere
    after a part of the path that decodes, becomes that character, unless
    the character is one of [; / ? : @ & = + $ , #], whose escape stays as it
    is written. *)
Theorem analyzePath_decodes_escapes
  `{Host} pre pre' h1 h2 b post dicts st :
  decodeURI pre = Returns pre' ->
  URI.ParseHexOctet h1 h2 = Some b -> (b < 128)%N ->
  analyzePath (pre ++ URI.percent :: h1 :: h2 :: post) dicts st
  = (path <- lift (cmap (fun post' =>
                pre' ++ (if URI.preserved b then [URI.percent; h1; h2] else [b])
                ++ post')
              (decodeURI post)) ;;
     mapM (analyzePart dicts) (pathParts path)) st.
Proof.
  intros D P L. unfold analyzePath.
  rewrite (decodeURI_app _ _ _ D), (decodeURI_escape _ _ _ _ P L), cmap_cmap.
  reflexivity.
Qed.

(** The escape of [.] is decoded before the split, the escape of [,] is
    not. *)
Lemma analyzePath_decodes_escapes_witness :
  analyzePath (str "a%2Eb") [] Examples.start
  = (Returns [ObjectPart (str "a"); ObjectPart (str "b")], Examples.start)
  /\ analyzePath (str "f(a%2Cb)") [] Examples.start
     = (Returns [FunctionPart (str "f")
                   [errorObject (str "a%2Cb is not a valid identifier.")]],
        Examples.start).
Proof.
  split.
  - refine (eq_trans
              (analyzePath_decodes_escapes (str "a") (str "a")
                 (chr "2") (chr "E") 46%N (str "b") [] Examples.start
                 eq_refl eq_refl eq_refl) _).
    vm_compute. reflexivity.
  - refine (eq_trans
              (analyzePath_decodes_escapes (str "f(a") (str "f(a")
                 (chr "2") (chr "C") 44%N (str "b)") [] Examples.start
                 eq_refl eq_refl eq_refl) _).
    vm_compute. reflexivity.
Defined.

(** C4, as it is written, fails: the escape of a comma is not decoded, and
    [f(a%2Cb)] is a call with one argument, which is no identifier. *)
Lemma comma_escape_is_kept :
  decodeURI (str "%2C") = Returns (str "%2C")
  /\ analyzePath (str "f(a%2Cb)") [] Examples.start
     = (Returns [FunctionPart (str "f")
                   [errorObject (str "a%2Cb is not a valid identifier.")]],
        Examples.start)
  /\ analyzePath (str "f(a,b)") [] Examples.start
     = (Returns [FunctionPart (str "f")
                   [valueObject (VString (str "a"));
                    valueObject (VString (str "b"))]],
        Examples.start).
Proof. repeat split; vm_compute; reflexivity. Qed.

(** C5.  The claim is that every decoded path is split on its dots.  The
    code breaks it on a path that starts with a dot: [indexOf] is 0 there,
    which is falsy, and the whole path is analyzed as one segment, where
    splitting it gives the empty segment and then the segments of what
    follows the dot. *)
Theorem leading_dot_path_is_one_segment `{Host} encodedPath p dicts st :
  decodeURI encodedPath = Returns (chr "." :: p) ->
  analyzePath encodedPath dicts st
  = (part <- analyzePart dicts (chr "." :: p) ;; ret [part]) st
  /\ split (chr ".") (chr "." :: p) = [] :: split (chr ".") p.
Proof.
  intros D. split; [|reflexivity].
  unfold analyzePath. rewrite D. norm.
  rewrite pathParts_leading_dot. cbn [mapM]. norm.
  now destruct (analyzePart dicts (chr "." :: p) st) as [[part | e |] st'].
Qed.

(** [.a.b] is the single object step [.a.b], not the steps of the segments
    [], [a] and [b]. *)
Lemma leading_dot_path_is_one_segment_witness :
  analyzePath (str ".a.b") [] Examples.start
  = (Returns [ObjectPart (str ".a.b")], Examples.start)
  /\ split (chr ".") (str ".a.b") = [[]; str "a"; str "b"].
Proof.
  destruct (leading_dot_path_is_one_segment (str ".a.b") (str "a.b") []
              Examples.start eq_refl) as [A S].
  split.
  - rewrite A. reflexivity.
  - exact (eq_trans S eq_refl).
Defined.

(** C6, as amended.  For a bare identifier token resolved through an
    argument source that is a function: when no earlier source matched and
    the function returns a truthy [v] for the name, the token's Argument is
    [v] itself; and a function step is invoked with the [value] member of
    each of its Arguments, so with [v.value], not with [v], in the position
    of [v]. *)
Theorem function_source_argument
  `{Host} pre f fown post a v st st1 w :
  bareIdentifier a = true ->
  skipped pre a st = Some st1 ->
  invoke f VUndefined [VString a] (world st1) = (Returns v, w) ->
  truthy v = true ->
  getArgumentValue (pre ++ VFunction f fown :: post) a st
  = (Returns v, called st1 w (Call f VUndefined [VString a]))
  /\ forall options fuel obj current id g gown rest st0 current' st'
       l1 l2 xs1 x xs2,
       checked options current (FunctionPart id (l1 ++ v :: l2)) st0
         current' st' ->
       hasOwnProperty current' id = Returns true ->
       Get current' id = Returns (VFunction g gown) ->
       valuesOf l1 xs1 -> Get v (str "value") = Returns x -> valuesOf l2 xs2 ->
       exists t,
         trace (snd (walk options fuel obj current
                       (FunctionPart id (l1 ++ v :: l2) :: rest) st0))
         = trace st'
           ++ Call g current'
                (stepArguments options (FunctionPart id (l1 ++ v :: l2))
                   (xs1 ++ x :: xs2))
           :: t.
Proof.
  intros B S I T. split.
  - rewrite (getArgumentValue_bare _ _ B), (lookupDicts_skipped _ _ _ _ _ S).
    cbn [lookupDicts typeof jstype_eqb]. norm.
    rewrite (call_function _ _ _ _ _ _ _ I). now rewrite T.
  - intros options fuel obj current id g gown rest st0 current' st'
      l1 l2 xs1 x xs2 C O G V1 X V2.
    assert (V : valuesOf (l1 ++ v :: l2) (xs1 ++ x :: xs2)).
    { apply Forall2_app; [exact V1 | constructor; assumption]. }
    rewrite (walk_function_step _ _ _ _ _ _ _ _ _ _ _ C O G).
    cbn [typeof jstype_eqb].
    rewrite (bind_returns _ _ _ _ _ (argumentValues_valuesOf _ _ st' V)).
    set (xs := stepArguments _ _ _). unfold bind, call.
    destruct (invoke g current' xs (world st')) as [r w'].
    destruct r as [r | e |]; cbn [snd trace]; try (now exists []).
    destruct (monotone_settle options fuel (extend obj id) rest r
                {| world := w'; trace := trace st' ++ [Call g current' xs] |})
      as [t E].
    exists t. rewrite E. cbn [trace]. now rewrite <- app_assoc.
Qed.

(** The step [g(x)] with the source [(name) => name === "x" ? { value: 10 }
    : undefined]: the Argument is [{ value: 10 }], and [g] is called with
    10. *)
Lemma function_source_argument_witness :
  getArgumentValue [VFunction Examples.resolver []] (str "x") Examples.start
  = (Returns (valueObject (VNumber (Finite 10))),
     called Examples.start 0%nat
       (Call Examples.resolver VUndefined [VString (str "x")]))
  /\ exists t,
       trace (snd (walk noOptions 0 None Examples.echoRoot
                     [FunctionPart (str "g")
                        [valueObject (VNumber (Finite 10))]] Examples.start))
       = Call Examples.echo Examples.echoRoot [VNumber (Finite 10)] :: t.
Proof.
  destruct (function_source_argument [] Examples.resolver [] [] (str "x")
              (valueObject (VNumber (Finite 10))) Examples.start Examples.start
              0%nat eq_refl eq_refl eq_refl eq_refl) as [A S].
  split; [exact A|].
  apply (S noOptions 0%nat None Examples.echoRoot (str "g") Examples.echo []
           [] Examples.start Examples.echoRoot Examples.start
           [] [] [] (VNumber (Finite 10)) []).
  - split; [discriminate | reflexivity].
  - reflexivity.
  - reflexivity.
  - constructor.
  - reflexivity.
  - constructor.
Defined.

(** C6, as it is written, fails: with the source that answers [{ value: 10
    }] for [x], the step [g(x)] is invoked with 10, which is not what the
    source returned. *)
Lemma function_step_gets_value_member :
  Examples.behaviour Examples.resolver VUndefined [VString (str "x")] 0%nat
  = (Returns (valueObject (VNumber (Finite 10))), 0%nat)
  /\ truthy (valueObject (VNumber (Finite 10))) = true
  /\ route noOptions 0 Examples.echoRoot (str "g(x)")
       [VFunction Examples.resolver []] Examples.start
     = (Returns (VNumber (Finite 10)),
        called
          (called Examples.start 0%nat
             (Call Examples.resolver VUndefined [VString (str "x")]))
          0%nat (Call Examples.echo Examples.echoRoot [VNumber (Finite 10)]))
  /\ VNumber (Finite 10) <> valueObject (VNumber (Finite 10)).
Proof. repeat split; try (vm_compute; reflexivity). discriminate. Qed.

(** C7.  The precedence of the resolution of an argument token: [true] and
    [false] are booleans whatever the sources define; else a token that is
    no [NaN] is the number it parses to, the double nearest to what is
    written, and no source is consulted; else an identifier is looked up
    through the sources in order and the first match wins, an own property
    of a source that is no function or the truthy answer of one that is; and
    an identifier no source matches is the string of its own name.  Every
    result but the answer of a function is an object with the one member
    [value].  With the sources [{ x: 1 }, { x: 2 }], [x] is 1; whatever the
    sources, [0x1F] is 31, [0.1] the double nearest to a tenth, [-0] the
    negative zero and [1e400] an infinity. *)
Theorem argument_precedence `{Host} dicts a st :
  (getArgumentValue dicts (str "true") st
   = (Returns (VObject [(str "value", VBoolean true)] []), st)
   /\ getArgumentValue dicts (str "false") st
      = (Returns (VObject [(str "value", VBoolean false)] []), st))
  /\ (JsString.eqb a (str "true") || JsString.eqb a (str "false") = false ->
      isNaN a = false ->
      getArgumentValue dicts a st
      = (Returns (VObject [(str "value", VNumber (Number.StringToNumber a))] []),
         st))
  /\ (bareIdentifier a = true ->
      forall pre st1,
        skipped pre a st = Some st1 ->
        (forall d post x,
           dicts = pre ++ d :: post ->
           typeof d <> TFunction ->
           hasOwnProperty d a = Returns true ->
           Get d a = Returns x ->
           getArgumentValue dicts a st
           = (Returns (VObject [(str "value", x)] []), st1))
        /\ (forall f fown post v w,
              dicts = pre ++ VFunction f fown :: post ->
              invoke f VUndefined [VString a] (world st1) = (Returns v, w) ->
              truthy v = true ->
              getArgumentValue dicts a st
              = (Returns v, called st1 w (Call f VUndefined [VString a])))
        /\ (dicts = pre ->
            getArgumentValue dicts a st
            = (Returns (VObject [(str "value", VString a)] []), st1)))
  /\ getArgumentValue [Examples.x1; Examples.x2] (str "x") st
     = (Returns (VObject [(str "value", VNumber (Finite 1))] []), st)
  /\ (getArgumentValue dicts (str "0x1F") st
      = (Returns (VObject [(str "value", VNumber (Finite 31))] []), st)
      /\ getArgumentValue dicts (str "0.1") st
         = (Returns
              (VObject
                 [(str "value",
                   VNumber (Finite (3602879701896397 # 36028797018963968)))]
                 []), st)
      /\ getArgumentValue dicts (str "-0") st
         = (Returns (VObject [(str "value", VNumber NegativeZero)] []), st)
      /\ getArgumentValue dicts (str "1e400") st
         = (Returns (VObject [(str "value", VNumber (Infinity false))] []),
            st)).
Proof.
  assert (N : JsString.eqb a (str "true") || JsString.eqb a (str "false")
              = false ->
              isNaN a = false ->
              getArgumentValue dicts a st
              = (Returns
                   (VObject [(str "value", VNumber (Number.StringToNumber a))]
                      []), st)).
  { intros E N. unfold getArgumentValue. now rewrite E, N. }
  assert (L : forall t n,
             JsString.eqb t (str "true") || JsString.eqb t (str "false")
             = false ->
             Number.StringToNumber t = n ->
             Number.isNaN n = false ->
             getArgumentValue dicts t st
             = (Returns (VObject [(str "value", VNumber n)] []), st)).
  { intros t n E <- I. unfold getArgumentValue, isNaN. now rewrite E, I. }
  split; [split; reflexivity|].
  split; [exact N|]. split; [|split; [reflexivity|]].
  - intros B pre st1 S.
    rewrite (getArgumentValue_bare _ _ B). split; [|split].
    + intros d post x -> F O G. rewrite (lookupDicts_skipped _ _ _ _ _ S).
      cbn [lookupDicts]. destruct (typeof d) eqn:T; try congruence;
        cbn [jstype_eqb]; norm; now rewrite O, G.
    + intros f fown post v w -> I T.
      rewrite (lookupDicts_skipped _ _ _ _ _ S).
      cbn [lookupDicts typeof jstype_eqb]. norm.
      rewrite (call_function _ _ _ _ _ _ _ I). now rewrite T.
    + intros ->. rewrite <- (app_nil_r pre) at 1.
      now rewrite (lookupDicts_skipped _ _ _ _ _ S).
  - split; [|split; [|split]]; apply L;
      solve [reflexivity | vm_compute; reflexivity].
Qed.

(** A source that defines [true] does not change the boolean; [0x1F] is the
    number 31 and [9007199254740993], which is no double, the even one of its
    two neighbours; the first of two sources that define [x] wins; [y],
    which no source defines, is the string [y]. *)
Lemma argument_precedence_witness :
  getArgumentValue [VObject [(str "true", VNumber (Finite 7))] []]
    (str "true") Examples.start
  = (Returns (VObject [(str "value", VBoolean true)] []), Examples.start)
  /\ getArgumentValue [Examples.x1] (str "0x1F") Examples.start
     = (Returns (VObject [(str "value", VNumber (Finite 31))] []),
        Examples.start)
  /\ getArgumentValue [Examples.x1] (str "9007199254740993") Examples.start
     = (Returns
          (VObject [(str "value", VNumber (Finite 9007199254740992))] []),
        Examples.start)
  /\ getArgumentValue [Examples.x1; Examples.x2] (str "x") Examples.start
     = (Returns (VObject [(str "value", VNumber (Finite 1))] []),
        Examples.start)
  /\ getArgumentValue [Examples.x1; Examples.x2] (str "y") Examples.start
     = (Returns (VObject [(str "value", VString (str "y"))] []),
        Examples.start).
Proof.
  split; [|split; [|split; [|split]]].
  - apply (proj1 (proj1 (argument_precedence
                           [VObject [(str "true", VNumber (Finite 7))] []]
                           (str "true") Examples.start))).
  - refine (eq_trans
              (proj1 (proj2 (argument_precedence [Examples.x1] (str "0x1F")
                               Examples.start)) eq_refl eq_refl) _).
    vm_compute. reflexivity.
  - refine (eq_trans
              (proj1 (proj2 (argument_precedence [Examples.x1]
                               (str "9007199254740993") Examples.start))
                 eq_refl eq_refl) _).
    vm_compute. reflexivity.
  - apply (proj1 (proj1 (proj2 (proj2 (argument_precedence
             [Examples.x1; Examples.x2] (str "x") Examples.start)))
             eq_refl [] Examples.start eq_refl)
             Examples.x1 [Examples.x2] (VNumber (Finite 1)) eq_refl).
    + discriminate.
    + reflexivity.
    + reflexivity.
  - apply (proj2 (proj2 (proj1 (proj2 (proj2 (argument_precedence
             [Examples.x1; Examples.x2] (str "y") Examples.start)))
             eq_refl [Examples.x1; Examples.x2] Examples.start eq_refl))
             eq_refl).
Defined.

(** C8, as amended.  A step that is reached with the current value
    [undefined] is not entered: the loop stops with no error and the result
    of [route] is [undefined], in the state the step was reached in.  At a
    step that is entered, [modifyHandler] (when there is one) gives the value
    the own-property check is applied to.  When the check says that the
    member is missing, the result of [route] is a [RoutingError] of type
    [NOT_FOUND]; so it is when the member of a function step holds
    [undefined]; when the member of a function step is defined and is no
    function, the result is a [RoutingError] of type [NOT_A_FUNCTION] whose
    message is the display path, then [ is not a function. Was ], the
    [typeof] of the member and a full stop.  In each case the state is the
    one the step was checked in, whatever the steps that remain: none of
    them is processed.  The display path is the identifiers of the steps so
    far joined by dots, the first of them being not empty.  The check says
    that the member is missing of every value but [null] that is no object by
    [typeof] or has no such own property; and a [RoutingError] is an object
    whose [message] and [type] are the two strings it was made of. *)
Theorem routing_errors
  `{Host} options fuel _app expression dicts st before current part rest st1 :
  reaches options fuel _app expression dicts st before current
    (part :: rest) st1 ->
  (current = VUndefined ->
   route options fuel _app expression dicts st = (Returns VUndefined, st1))
  /\ (forall current' st2,
        typeof current <> TUndefined ->
        modify options current (VString (identifier part)) st1
        = (Returns current', st2) ->
        (hasOwnProperty current' (identifier part) = Returns false ->
         route options fuel _app expression dicts st
         = (Returns (VRoutingError (str "The requested path was not found.")
                       (str "NOT_FOUND")), st2))
        /\ (forall id args,
              part = FunctionPart id args ->
              hasOwnProperty current' id = Returns true ->
              Get current' id = Returns VUndefined ->
              route options fuel _app expression dicts st
              = (Returns
                   (VRoutingError (str "The requested path was not found.")
                      (str "NOT_FOUND")), st2))
        /\ (forall id args fn,
              part = FunctionPart id args ->
              hasOwnProperty current' id = Returns true ->
              Get current' id = Returns fn ->
              typeof fn <> TFunction -> typeof fn <> TUndefined ->
              route options fuel _app expression dicts st
              = (Returns
                   (VRoutingError
                      (displayPath before part
                       ++ str " is not a function. Was "
                       ++ typeName (typeof fn) ++ str ".")
                      (str "NOT_A_FUNCTION")), st2)))
  /\ (match before ++ [part] with
      | first :: _ => identifier first <> []
      | [] => True
      end ->
      displayPath before part
      = join (str ".") (List.map identifier (before ++ [part])))
  /\ (forall v prop,
        hasOwnProperty v prop = Returns false
        <-> v <> VNull /\ (typeof v <> TObject \/ ownProperty v prop = None))
  /\ (forall message type,
        RoutingError message type = VRoutingError message type
        /\ typeof (VRoutingError message type) = TObject
        /\ Get (VRoutingError message type) (str "message")
           = Returns (VString message)
        /\ Get (VRoutingError message type) (str "type")
           = Returns (VString type)).
Proof.
  intros R. rewrite (route_reaches _ _ _ _ _ _ _ _ _ _ R).
  split; [|split; [|split; [|split]]].
  - intros ->. apply finish_plain; [apply walk_undefined | discriminate].
  - intros current' st2 U Mo.
    assert (C : checked options current part st1 current' st2) by now split.
    split; [|split].
    + intros O.
      now apply (finish_error _ _ _ _ _ _ _
                   (walk_missing _ _ _ _ _ _ _ _ _ C O)).
    + intros id args -> O G.
      apply (finish_error _ _ _ _ current'); [|reflexivity].
      now rewrite (walk_function_step _ _ _ _ _ _ _ _ _ _ _ C O G).
    + intros id args fn -> O G F T.
      apply (finish_error _ _ _ _ current'); [|reflexivity].
      rewrite (walk_function_step _ _ _ _ _ _ _ _ _ _ _ C O G).
      unfold NOT_A_FUNCTION, displayPath. cbn [identifier].
      destruct (typeof fn) eqn:E; try congruence; reflexivity.
  - apply displayPath_join.
  - intros v prop. unfold hasOwnProperty, Object_hasOwnProperty. split.
    + intros O. split; [intros ->; discriminate|].
      destruct (jstype_eqb (typeof v) TObject) eqn:T.
      * right. destruct v; try discriminate;
          now destruct (ownProperty _ prop).
      * left. intros E. now rewrite E in T.
    + intros [N [T | O]].
      * destruct (typeof v) eqn:E; try reflexivity. congruence.
      * rewrite O. destruct v; try reflexivity; congruence.
  - intros message type. split; [reflexivity|]. split; [reflexivity|].
    split; [reflexivity|]. cbn.
    destruct (JsString.eqb (str "type") (str "message")) eqn:E;
      [discriminate E | reflexivity].
Qed.

(** [a.b(1)] against [{ a: { b: 5 } }] is [a.b is not a function. Was
    number.]; [a.b.c] against [{ a: { b: {} } }] is not found; [f(1)]
    against [undefined] is [undefined]. *)
Lemma routing_errors_witness :
  route noOptions 0 Examples.numberMember (str "a.b(1)") [] Examples.start
  = (Returns (VRoutingError (str "a.b is not a function. Was number.")
                (str "NOT_A_FUNCTION")), Examples.start)
  /\ route noOptions 0 Examples.emptyMember (str "a.b.c") [] Examples.start
     = (Returns (VRoutingError (str "The requested path was not found.")
                   (str "NOT_FOUND")), Examples.start)
  /\ route noOptions 0 VUndefined (str "f(1)") [] Examples.start
     = (Returns VUndefined, Examples.start).
Proof.
  split; [|split].
  - assert (R : reaches noOptions 0 Examples.numberMember (str "a.b(1)") []
                  Examples.start [ObjectPart (str "a")]
                  (VObject [(str "b", VNumber (Finite 5))] [])
                  [FunctionPart (str "b") [valueObject (VNumber (Finite 1))]]
                  Examples.start).
    { exists Examples.numberMember, Examples.start, Examples.start.
      split; [reflexivity | split; vm_compute; reflexivity]. }
    refine (eq_trans
              (proj2 (proj2 (proj1 (proj2
                 (routing_errors _ _ _ _ _ _ _ _ _ _ _ R))
                 (VObject [(str "b", VNumber (Finite 5))] []) Examples.start
                 _ eq_refl))
                 (str "b") [valueObject (VNumber (Finite 1))]
                 (VNumber (Finite 5)) eq_refl eq_refl eq_refl _ _) _).
    + discriminate.
    + discriminate.
    + discriminate.
    + vm_compute. reflexivity.
  - assert (R : reaches noOptions 0 Examples.emptyMember (str "a.b.c") []
                  Examples.start [ObjectPart (str "a"); ObjectPart (str "b")]
                  (VObject [] []) [ObjectPart (str "c")] Examples.start).
    { exists Examples.emptyMember, Examples.start, Examples.start.
      split; [reflexivity | split; vm_compute; reflexivity]. }
    assert (U : typeof (VObject [] []) <> TUndefined) by discriminate.
    exact (proj1 (proj1 (proj2 (routing_errors _ _ _ _ _ _ _ _ _ _ _ R))
                    (VObject [] []) Examples.start U eq_refl) eq_refl).
  - assert (R : reaches noOptions 0 VUndefined (str "f(1)") []
                  Examples.start [] VUndefined
                  [FunctionPart (str "f") [valueObject (VNumber (Finite 1))]]
                  Examples.start).
    { exists VUndefined, Examples.start, Examples.start.
      split; [reflexivity | split; vm_compute; reflexivity]. }
    exact (proj1 (routing_errors _ _ _ _ _ _ _ _ _ _ _ R) eq_refl).
Defined.

(** C8, as it is written, fails: a step reached with the current value
    [undefined], here what the root factory returned, has no member, and
    the result of [route] is [undefined], no [RoutingError]. *)
Lemma undefined_step_is_not_an_error :
  route noOptions 0 (VFunction Examples.hook []) (str "a.b(1)") []
    Examples.start
  = (Returns VUndefined,
     called Examples.start 0%nat (Call Examples.hook VUndefined []))
  /\ VUndefined <> VRoutingError (str "The requested path was not found.")
                     (str "NOT_FOUND").
Proof. split; [vm_compute; reflexivity | discriminate]. Qed.

(** C9.  A step whose member is a function, invoked with the step's
    arguments, returns (once awaited) a sequence whose [next] gives the
    element [a], then the element [b], then the completion with the terminal
    value [v]; [onNextValue] is a function.  Then the calls of the step are,
    in order: the member, [next], [onNextValue] with [a], [next],
    [onNextValue] with [b], [next], and no other; and the loop goes on with
    [v] as the current value. *)
Theorem drains_incremental_sequence
  `{Host} options fuel obj current part rest st current' st1
  g gown values r0 w0 gen n nown h hown r1 w1 a u1 w2 r2 w3 b u2 w4 r3 w5 v :
  checked options current part st current' st1 ->
  hasOwnProperty current' (identifier part) = Returns true ->
  Get current' (identifier part) = Returns (VFunction g gown) ->
  partValues part values ->
  let args := stepArguments options part values in
  let this := optionsObject options in
  invoke g current' args (world st1) = (Returns r0, w0) ->
  await r0 = Returns gen ->
  Get gen (str "next") = Returns (VFunction n nown) ->
  onNextValue options = VFunction h hown ->
  invoke n gen [] w0 = (Returns r1, w1) -> yields r1 a ->
  invoke h this [a] w1 = (Returns u1, w2) ->
  invoke n gen [] w2 = (Returns r2, w3) -> yields r2 b ->
  invoke h this [b] w3 = (Returns u2, w4) ->
  invoke n gen [] w4 = (Returns r3, w5) -> completes r3 v ->
  walk options (3 + fuel) obj current (part :: rest) st
  = walk options (3 + fuel) (Some (extend obj (identifier part))) v rest
      {| world := w5;
         trace := trace st1
                  ++ [Call g current' args;
                      Call n gen []; Call h this [a];
                      Call n gen []; Call h this [b];
                      Call n gen []] |}.
Proof.
  intros C O G V args this I A N OH I1 Y1 J1 I2 Y2 J2 I3 C3.
  assert (S : walk options (3 + fuel) obj current (part :: rest) st
              = (r <- call (VFunction g gown) current' args ;;
                 settle options (3 + fuel) (extend obj (identifier part)) rest r)
                  st1).
  { destruct part as [id|id fargs]; cbn [identifier] in *.
    - now rewrite (walk_object_step _ _ _ _ _ _ _ _ _ _ C O G).
    - rewrite (walk_function_step _ _ _ _ _ _ _ _ _ _ _ C O G).
      cbn [typeof jstype_eqb].
      now rewrite (bind_returns _ _ _ _ _ (argumentValues_valuesOf _ _ st1 V)). }
  rewrite S, (bind_returns _ _ _ _ _ (call_function _ _ _ _ _ _ _ I)).
  unfold settle, iterateToEnd, __isIterable. norm. rewrite A, N.
  cbn [cbind truthy typeof jstype_eqb].
  cbn [Nat.add].
  set (s0 := called st1 w0 (Call g current' args)).
  rewrite (drain_yield options _ _ _ _ _ _ s0 _ _ _ _ _ N OH I1 Y1 J1).
  set (s2 := called (called s0 w1 _) w2 _).
  rewrite (drain_yield options _ _ _ _ _ _ s2 _ _ _ _ _ N OH I2 Y2 J2).
  set (s4 := called (called s2 w3 _) w4 _).
  rewrite (drain_complete options _ _ _ _ s4 _ _ _ N I3 C3).
  destruct C3 as (? & ? & v0 & _ & _ & _ & _ & X).
  rewrite (await_idem _ _ X).
  unfold s4, s2, s0, called. cbn [trace world]. rewrite <- !app_assoc.
  reflexivity.
Qed.

(** The object step [g] whose function returns the generator that yields [a]
    and [b] and returns [v]. *)
Lemma drains_incremental_sequence_witness :
  walk Examples.streaming 3 None Examples.echoRoot [ObjectPart (str "g")]
    Examples.start
  = (Returns (VString (str "v"), None),
     {| world := (3%nat : @World Examples.host);
        trace := [Call Examples.echo Examples.echoRoot [Examples.generator];
                  Call Examples.next Examples.generator [];
                  Call Examples.hook (optionsObject Examples.streaming)
                    [VString (str "a")];
                  Call Examples.next Examples.generator [];
                  Call Examples.hook (optionsObject Examples.streaming)
                    [VString (str "b")];
                  Call Examples.next Examples.generator []] |}).
Proof.
  refine (eq_trans
            (drains_incremental_sequence Examples.streaming 0 None
               Examples.echoRoot (ObjectPart (str "g")) [] Examples.start
               Examples.echoRoot Examples.start Examples.echo [] []
               Examples.generator 0%nat Examples.generator Examples.next []
               Examples.hook []
               (Examples.iterResult (VString (str "a")) false) 1%nat
               (VString (str "a")) VUndefined 1%nat
               (Examples.iterResult (VString (str "b")) false) 2%nat
               (VString (str "b")) VUndefined 2%nat
               (Examples.iterResult (VString (str "v")) true) 3%nat
               (VString (str "v"))
               _ eq_refl eq_refl eq_refl eq_refl eq_refl eq_refl eq_refl
               eq_refl _ eq_refl eq_refl _ eq_refl eq_refl _) _).
  - split; [discriminate | reflexivity].
  - exists (Examples.iterResult (VString (str "a")) false),
      (VBoolean false), (VString (str "a")). repeat split.
  - exists (Examples.iterResult (VString (str "b")) false),
      (VBoolean false), (VString (str "b")). repeat split.
  - exists (Examples.iterResult (VString (str "v")) true),
      (VBoolean true), (VString (str "v")). repeat split.
  - reflexivity.
Defined.

(** C10, as amended.  The own-property check first requires [typeof] of the
    value it is applied to to be [object].  So at a step that is entered
    (its current value is not [undefined]), when the value the check is
    applied to is a function, a string, a number or any other non-object,
    the result of [route] is a [RoutingError] of type [NOT_FOUND], even if
    the identifier is an own property of that value; and when the loop ends
    with a current value that is no object, the index is not looked up and
    that value is the result.  A step that is reached with the current value
    [undefined] is not entered: whatever steps are left, the loop stops with
    no error and the result of [route] is [undefined]. *)
Theorem own_property_check_requires_object
  `{Host} options fuel _app expression dicts st :
  (forall v prop, typeof v <> TObject -> hasOwnProperty v prop = Returns false)
  /\ (forall before current part rest st1 current' st2,
        reaches options fuel _app expression dicts st before current
          (part :: rest) st1 ->
        typeof current <> TUndefined ->
        modify options current (VString (identifier part)) st1
        = (Returns current', st2) ->
        typeof current' <> TObject ->
        route options fuel _app expression dicts st
        = (Returns (VRoutingError (str "The requested path was not found.")
                      (str "NOT_FOUND")), st2))
  /\ (forall before current st1,
        reaches options fuel _app expression dicts st before current [] st1 ->
        typeof current <> TObject ->
        route options fuel _app expression dicts st = (Returns current, st1))
  /\ (forall before part rest st1,
        reaches options fuel _app expression dicts st before VUndefined
          (part :: rest) st1 ->
        route options fuel _app expression dicts st
        = (Returns VUndefined, st1)).
Proof.
  split; [|split; [|split]].
  - intros. now apply hasOwnProperty_not_object.
  - intros before current part rest st1 current' st2 R U Mo T.
    rewrite (route_reaches _ _ _ _ _ _ _ _ _ _ R).
    apply (finish_error _ _ _ _ current'); [|reflexivity].
    apply walk_missing; [now split|].
    now apply hasOwnProperty_not_object.
  - intros before current st1 R T.
    rewrite (route_reaches _ _ _ _ _ _ _ _ _ _ R).
    now apply finish_plain.
  - intros before part rest st1 R.
    rewrite (route_reaches _ _ _ _ _ _ _ _ _ _ R).
    apply finish_plain; [apply walk_undefined | discriminate].
Qed.

(** [length] against the string [abc], of which [length] is an own
    property; the empty expression against it, with the index [length]; and
    [a.length] against [undefined]. *)
Lemma own_property_check_requires_object_witness :
  ownProperty (VString (str "abc")) (str "length")
  = Some (VNumber (Finite 3))
  /\ hasOwnProperty (VString (str "abc")) (str "length") = Returns false
  /\ route noOptions 0 (VString (str "abc")) (str "length") [] Examples.start
     = (Returns (VRoutingError (str "The requested path was not found.")
                   (str "NOT_FOUND")), Examples.start)
  /\ route {| onNextValue := VUndefined; args := None;
              prependArgs := VUndefined; modifyHandler := VUndefined;
              index := Some (str "length") |}
       0 (VString (str "abc")) [] [] Examples.start
     = (Returns (VString (str "abc")), Examples.start)
  /\ route noOptions 0 VUndefined (str "a.length") [] Examples.start
     = (Returns VUndefined, Examples.start).
Proof.
  split; [reflexivity|]. split; [|split; [|split]].
  - apply (proj1 (own_property_check_requires_object noOptions 0 VUndefined
                    [] [] Examples.start)).
    discriminate.
  - apply (proj1 (proj2 (own_property_check_requires_object noOptions 0
                           (VString (str "abc")) (str "length") []
                           Examples.start))
             [] (VString (str "abc")) (ObjectPart (str "length")) []
             Examples.start (VString (str "abc")) Examples.start).
    + exists (VString (str "abc")), Examples.start, Examples.start.
      split; [reflexivity | split; vm_compute; reflexivity].
    + discriminate.
    + reflexivity.
    + discriminate.
  - apply (proj1 (proj2 (proj2 (own_property_check_requires_object _ 0
                           (VString (str "abc")) [] [] Examples.start)))
             [] (VString (str "abc")) Examples.start).
    + exists (VString (str "abc")), Examples.start, Examples.start.
      split; [reflexivity | split; reflexivity].
    + discriminate.
  - apply (proj2 (proj2 (proj2 (own_property_check_requires_object noOptions
                           0 VUndefined (str "a.length") []
                           Examples.start)))
             [] (ObjectPart (str "a")) [ObjectPart (str "length")]
             Examples.start).
    exists VUndefined, Examples.start, Examples.start.
    split; [reflexivity | split; vm_compute; reflexivity].
Defined.

(** C10, as it is written, fails: [undefined] is no object, and a step
    reached with the current value [undefined] stops the loop without an
    error; the result is [undefined]. *)
Lemma undefined_current_is_no_error :
  typeof VUndefined <> TObject
  /\ route noOptions 0 VUndefined (str "a") [] Examples.start
     = (Returns VUndefined, Examples.start).
Proof. split; [discriminate | reflexivity]. Qed.

(** * Further properties *)

(** ** Strings *)

Section Strings.

Lemma free_app c s t : free c (s ++ t) = free c s && free c t.
Proof. apply forallb_app. Qed.

Lemma indexOf_free c s : free c s = true -> indexOf c s = -1.
Proof.
  induction s as [|d s IH]; [reflexivity|]. cbn [free forallb indexOf].
  intros F. apply andb_prop in F as [D F]. apply negb_true_iff in D.
  rewrite D, (IH F). reflexivity.
Qed.

Lemma indexOf_found c s t :
  free c s = true -> indexOf c (s ++ c :: t) = Z.of_nat (List.length s).
Proof.
  induction s as [|d s IH]; cbn [free forallb indexOf List.app List.length].
  - now rewrite N.eqb_refl.
  - intros F. apply andb_prop in F as [D F]. apply negb_true_iff in D.
    rewrite D, (IH F).
    destruct (Z.of_nat (List.length s) <? 0) eqn:E; [apply Z.ltb_lt in E|]; lia.
Qed.

Lemma split_free c s : free c s = true -> split c s = [s].
Proof.
  induction s as [|d s IH]; [reflexivity|]. cbn [free forallb split].
  intros F. apply andb_prop in F as [D F]. apply negb_true_iff in D.
  now rewrite D, (IH F).
Qed.

Lemma split_found c s t :
  free c s = true -> split c (s ++ c :: t) = s :: split c t.
Proof.
  induction s as [|d s IH]; cbn [free forallb split List.app].
  - now rewrite N.eqb_refl.
  - intros F. apply andb_prop in F as [D F]. apply negb_true_iff in D.
    now rewrite D, (IH F).
Qed.

Lemma split_not_nil c s : split c s <> [].
Proof.
  destruct s as [|d s]; cbn [split]; [discriminate|].
  destruct (N.eqb d c); [discriminate|]. now destruct (split c s).
Qed.

Lemma join_split c s : join [c] (split c s) = s.
Proof.
  induction s as [|d s IH]; [reflexivity|]. cbn [split].
  destruct (N.eqb d c) eqn:E.
  - apply N.eqb_eq in E. subst d.
    pose proof (split_not_nil c s) as N.
    destruct (split c s) as [|p ps]; [congruence|].
    cbn [join List.app] in *. now rewrite IH.
  - destruct (split c s) as [|p ps]; cbn [join] in *.
    + now subst s.
    + destruct ps; cbn [join List.app] in *; now rewrite <- IH.
Qed.

Lemma split_join c ids :
  ids <> [] -> forallb (free c) ids = true ->
  split c (join [c] ids) = ids.
Proof.
  induction ids as [|p ids IH]; [congruence|]. intros _ F.
  cbn [forallb] in F. apply andb_prop in F as [P F].
  destruct ids as [|q ids]; cbn [join].
  - now apply split_free.
  - cbn [List.app]. rewrite (split_found _ _ _ P). f_equal.
    now apply IH.
Qed.

Lemma Decode_free s : free URI.percent s = true -> decodeURI s = Returns s.
Proof.
  unfold decodeURI. induction s as [|d s IH]; [reflexivity|].
  cbn [free forallb Decode]. intros F. apply andb_prop in F as [D F].
  apply negb_true_iff in D. now rewrite D, (IH F).
Qed.

Lemma firstn_skipn_middle {A} (a b c : list A) :
  firstn (List.length b) (skipn (List.length a) (a ++ b ++ c)) = b.
Proof.
  rewrite skipn_app, skipn_all, Nat.sub_diag. cbn [skipn List.app].
  rewrite firstn_app, firstn_all, Nat.sub_diag. cbn [firstn].
  now rewrite app_nil_r.
Qed.

Lemma substring_prefix a b :
  substring (a ++ b) 0 (Z.of_nat (List.length a)) = a.
Proof.
  unfold substring, clamp. rewrite length_app.
  replace (Z.min (Z.max 0 0) _) with 0 by lia.
  replace (Z.min (Z.max (Z.of_nat (List.length a)) 0) _)
    with (Z.of_nat (List.length a)) by lia.
  replace (Z.min 0 _) with 0 by lia.
  replace (Z.max 0 _) with (Z.of_nat (List.length a)) by lia.
  rewrite Z.sub_0_r, Nat2Z.id. cbn [Z.to_nat skipn].
  rewrite firstn_app, firstn_all, Nat.sub_diag. cbn [firstn].
  now rewrite app_nil_r.
Qed.

Lemma substring_middle a x b c :
  substring (a ++ x :: b ++ c)
    (Z.of_nat (List.length a) + 1)
    (Z.of_nat (List.length a) + 1 + Z.of_nat (List.length b)) = b.
Proof.
  unfold substring, clamp. rewrite length_app. cbn [List.length].
  rewrite length_app.
  set (la := List.length a). set (lb := List.length b). set (lc := List.length c).
  replace (Z.min (Z.max (Z.of_nat la + 1) 0) _) with (Z.of_nat (S la)) by lia.
  replace (Z.min (Z.max (Z.of_nat la + 1 + Z.of_nat lb) 0) _)
    with (Z.of_nat (S la + lb)) by lia.
  replace (Z.min (Z.of_nat (S la)) _) with (Z.of_nat (S la)) by lia.
  replace (Z.max (Z.of_nat (S la)) _) with (Z.of_nat (S la + lb)) by lia.
  replace (Z.of_nat (S la + lb) - Z.of_nat (S la)) with (Z.of_nat lb) by lia.
  rewrite !Nat2Z.id.
  change (a ++ x :: b ++ c) with (a ++ [x] ++ b ++ c).
  rewrite app_assoc.
  replace (S la) with (List.length (a ++ [x])) by (rewrite length_app; cbn; lia).
  apply firstn_skipn_middle.
Qed.

(** Without a closing bracket the second position is -1: the positions are
    swapped and the substring is the prefix up to the first one. *)
Lemma substring_swapped s n :
  0 <= n <= Z.of_nat (List.length s) ->
  substring s n (-1) = firstn (Z.to_nat n) s.
Proof.
  intros R. unfold substring, clamp.
  replace (Z.min (Z.max n 0) _) with n by lia.
  replace (Z.min (Z.max (-1) 0) _) with 0 by lia.
  replace (Z.min n 0) with 0 by lia. replace (Z.max n 0) with n by lia.
  now rewrite Z.sub_0_r.
Qed.

End Strings.

(** ** Analysis *)

Section Analysis.
Context `{Host}.

Lemma free_join c ids :
  c <> chr "." -> forallb (free c) ids = true -> free c (join (str ".") ids) = true.
Proof.
  intros N. induction ids as [|p ids IH]; [reflexivity|]. cbn [forallb].
  intros F. apply andb_prop in F as [P F]. destruct ids as [|q ids]; [exact P|].
  change (join (str ".") (p :: q :: ids))
    with (p ++ str "." ++ join (str ".") (q :: ids)).
  rewrite !free_app, P, (IH F). cbn [free forallb str List.map
    list_ascii_of_string andb].
  apply N.eqb_neq in N. rewrite N.eqb_sym in N. unfold chr in N.
  now rewrite N.
Qed.


Lemma analyzePart_object dicts part st :
  free (chr "(") part = true ->
  analyzePart dicts part st = (Returns (ObjectPart part), st).
Proof. intros F. unfold analyzePart. now rewrite (indexOf_free _ _ F). Qed.

Lemma mapM_analyzePart_objects dicts ids st :
  forallb (free (chr "(")) ids = true ->
  mapM (analyzePart dicts) ids st = (Returns (List.map ObjectPart ids), st).
Proof.
  induction ids as [|p ids IH]; [reflexivity|]. cbn [forallb mapM List.map].
  intros F. apply andb_prop in F as [P F]. unfold bind.
  rewrite (analyzePart_object _ _ _ P), (IH F). reflexivity.
Qed.

End Analysis.

(** X1.  A path of identifiers joined by dots, none of which has a [%], a [.] or
    a [(] and the first of which is not empty, is analyzed into one object
    step per identifier, in order, without consulting an argument source. *)
Theorem analyzePath_identifiers `{Host} ids dicts st :
  hd [] ids <> [] ->
  forallb (free URI.percent) ids = true ->
  forallb (free (chr ".")) ids = true ->
  forallb (free (chr "(")) ids = true ->
  analyzePath (join (str ".") ids) dicts st
  = (Returns (List.map ObjectPart ids), st).
Proof.
  intros N P D B. unfold analyzePath.
  assert (Q : URI.percent <> chr ".") by (vm_compute; discriminate).
  rewrite (Decode_free _ (free_join _ _ Q P)).
  unfold bind, lift.
  assert (S : pathParts (join (str ".") ids) = ids).
  { destruct ids as [|[|c p] ids]; cbn [hd] in N; try congruence.
    assert (C : c <> chr ".").
    { cbn [forallb free] in D. apply andb_prop in D as [D _].
      apply andb_prop in D as [D _]. apply negb_true_iff in D.
      now apply N.eqb_neq. }
    replace (join (str ".") ((c :: p) :: ids))
      with (c :: List.tl (join (str ".") ((c :: p) :: ids)))
      by (now destruct ids).
    rewrite (pathParts_split _ _ C).
    replace (c :: List.tl (join (str ".") ((c :: p) :: ids)))
      with (join [chr "."] ((c :: p) :: ids)) by (now destruct ids).
    apply split_join; [discriminate | exact D]. }
  rewrite S. now apply mapM_analyzePart_objects.
Qed.

(** [users.list] is the object steps [users] and [list]. *)
Lemma analyzePath_identifiers_witness :
  analyzePath (str "users.list") [] Examples.start
  = (Returns [ObjectPart (str "users"); ObjectPart (str "list")],
     Examples.start).
Proof.
  exact (analyzePath_identifiers [str "users"; str "list"] [] Examples.start
           ltac:(discriminate) eq_refl eq_refl eq_refl).
Defined.

(** X2.  The segments of a decoded path, joined by dots again, are the path:
    the split loses and reorders nothing, whether the path starts with a dot
    or not. *)
Theorem pathParts_join path : join (str ".") (pathParts path) = path.
Proof.
  unfold pathParts. destruct (indexOf (chr ".") path =? 0); [reflexivity|].
  apply (join_split (chr ".")).
Qed.

(** X3.  A segment made of an identifier, an opening bracket, an argument text
    with no closing bracket in it, a closing bracket and anything after it
    is a function step of that identifier; its arguments are the pieces of
    the argument text between commas, trimmed and resolved in order; what
    follows the closing bracket is ignored. *)
Theorem analyzePart_call `{Host} id argsString tail dicts st :
  free (chr "(") id = true ->
  free (chr ")") id = true ->
  free (chr ")") argsString = true ->
  analyzePart dicts (id ++ chr "(" :: argsString ++ chr ")" :: tail) st
  = (args <- mapM (getArgumentValue dicts)
               (List.map trim (split (chr ",") argsString)) ;;
     ret (FunctionPart id args)) st.
Proof.
  intros O C A. unfold analyzePart.
  rewrite (indexOf_found _ _ _ O).
  assert (G : (Z.of_nat (List.length id) >? -1) = true)
    by (apply Z.gtb_lt; lia).
  rewrite G.
  assert (CB : indexOf (chr ")") (id ++ chr "(" :: argsString ++ chr ")" :: tail)
               = Z.of_nat (List.length id) + 1
                 + Z.of_nat (List.length argsString)).
  { replace (id ++ chr "(" :: argsString ++ chr ")" :: tail)
      with ((id ++ chr "(" :: argsString) ++ chr ")" :: tail)
      by (now rewrite <- app_assoc).
    rewrite indexOf_found.
    - rewrite length_app. cbn [List.length]. lia.
    - rewrite free_app. cbn [free forallb]. fold (free (chr ")") argsString).
      now rewrite C, A. }
  rewrite CB, substring_prefix. now rewrite substring_middle.
Qed.

(** [f(1, true)zzz] is [f] with the arguments 1 and [true]. *)
Lemma analyzePart_call_witness :
  analyzePart [] (str "f(1, true)zzz") Examples.start
  = (Returns (FunctionPart (str "f")
                [valueObject (VNumber (Finite 1));
                 valueObject (VBoolean true)]), Examples.start).
Proof.
  refine (eq_trans
            (analyzePart_call (str "f") (str "1, true") (str "zzz") []
               Examples.start eq_refl eq_refl eq_refl) _).
  vm_compute. reflexivity.
Defined.

(** X4.  A segment with an opening bracket and no closing bracket is still a
    function step of the identifier before the bracket; [indexOf] gives -1
    for the closing bracket, [substring] swaps its positions, and the
    argument text is the segment up to and with the opening bracket: what is
    written after the bracket is not read. *)
Theorem analyzePart_unclosed `{Host} id rest dicts st :
  free (chr "(") id = true ->
  free (chr ")") id = true ->
  free (chr ")") rest = true ->
  analyzePart dicts (id ++ chr "(" :: rest) st
  = (args <- mapM (getArgumentValue dicts)
               (List.map trim (split (chr ",") (id ++ [chr "("]))) ;;
     ret (FunctionPart id args)) st.
Proof.
  intros O C R. unfold analyzePart.
  rewrite (indexOf_found _ _ _ O).
  assert (G : (Z.of_nat (List.length id) >? -1) = true)
    by (apply Z.gtb_lt; lia).
  rewrite G.
  rewrite (indexOf_free (chr ")"))
    by (rewrite free_app; cbn [free forallb]; fold (free (chr ")") rest);
        now rewrite C, R).
  rewrite substring_prefix.
  rewrite substring_swapped by (rewrite length_app; cbn [List.length]; lia).
  replace (Z.to_nat (Z.of_nat (List.length id) + 1))
    with (List.length (id ++ [chr "("]))
    by (rewrite length_app; cbn [List.length]; lia).
  change (id ++ chr "(" :: rest) with (id ++ [chr "("] ++ rest).
  rewrite app_assoc, firstn_app, firstn_all, Nat.sub_diag. cbn [firstn].
  now rewrite app_nil_r.
Qed.

(** [f(x] is [f] with the one argument [f(], which is no identifier. *)
Lemma analyzePart_unclosed_witness :
  analyzePart [] (str "f(x") Examples.start
  = (Returns (FunctionPart (str "f")
                [errorObject (str "f( is not a valid identifier.")]),
     Examples.start).
Proof.
  refine (eq_trans
            (analyzePart_unclosed (str "f") (str "x") [] Examples.start
               eq_refl eq_refl eq_refl) _).
  vm_compute. reflexivity.
Defined.



(** ** Steps *)

Section Steps.
Context `{Host}.
Variable options : Options.
Variable fuel : nat.

Lemma iterateToEnd_notIterable v st :
  notIterable v -> iterateToEnd options fuel v st = (Returns v, st).
Proof.
  intros (y & I & T). unfold iterateToEnd. norm. now rewrite I, T.
Qed.

Lemma settle_value obj rest r x st :
  await r = Returns x -> notIterable x ->
  settle options fuel obj rest r st = walk options fuel (Some obj) x rest st.
Proof.
  intros A N. unfold settle. norm. rewrite A.
  rewrite (iterateToEnd_notIterable _ _ N). now rewrite (await_idem _ _ A).
Qed.

Lemma settle_throws obj rest r e st :
  await r = Throws e -> settle options fuel obj rest r st = (Throws e, st).
Proof. intros A. unfold settle. norm. now rewrite A. Qed.

Lemma settle_nullish obj rest r n st :
  await r = Returns n -> n = VUndefined \/ n = VNull ->
  settle options fuel obj rest r st = (Throws TypeError, st).
Proof.
  intros A N. unfold settle, iterateToEnd. norm. rewrite A.
  now destruct N as [-> | ->].
Qed.

(** The step whose member is a function: the call, then [settle]. *)
Lemma walk_call_step obj current part rest st current' st' g gown values :
  checked options current part st current' st' ->
  hasOwnProperty current' (identifier part) = Returns true ->
  Get current' (identifier part) = Returns (VFunction g gown) ->
  partValues part values ->
  walk options fuel obj current (part :: rest) st
  = (r <- call (VFunction g gown) current'
            (stepArguments options part values) ;;
     settle options fuel (extend obj (identifier part)) rest r) st'.
Proof.
  intros C O G V. destruct part as [id|id args]; cbn [identifier] in *.
  - now rewrite (walk_object_step _ _ _ _ _ _ _ _ _ _ C O G).
  - rewrite (walk_function_step _ _ _ _ _ _ _ _ _ _ _ C O G).
    cbn [typeof jstype_eqb].
    now rewrite (bind_returns _ _ _ _ _ (argumentValues_valuesOf _ _ st' V)).
Qed.

(** The object step whose member is there and gives no sequence. *)
Lemma walk_member_step obj current id rest st current' st' m :
  checked options current (ObjectPart id) st current' st' ->
  hasOwnProperty current' id = Returns true ->
  Get current' id = Returns m ->
  (forall x, typeof m <> TFunction -> await m = Returns x -> notIterable x ->
     walk options fuel obj current (ObjectPart id :: rest) st
     = walk options fuel (Some (extend obj id)) x rest st')
  /\ (forall g gown r w x,
        m = VFunction g gown ->
        invoke g current' (additionalArgs options) (world st')
        = (Returns r, w) ->
        await r = Returns x -> notIterable x ->
        walk options fuel obj current (ObjectPart id :: rest) st
        = walk options fuel (Some (extend obj id)) x rest
            (called st' w (Call g current' (additionalArgs options)))).
Proof.
  intros C O G. rewrite (walk_object_step _ _ _ _ _ _ _ _ _ _ C O G). split.
  - intros x F A N.
    destruct (typeof m) eqn:T; try congruence; cbn [jstype_eqb]; norm;
      now apply settle_value.
  - intros g gown r w x -> I A N. cbn [typeof jstype_eqb].
    rewrite (bind_returns _ _ _ _ _ (call_function _ _ _ _ _ _ _ I)).
    now apply settle_value.
Qed.

End Steps.

(** X6.  When the expression has a malformed escape, [route] is rejected with
    the [URIError] of [decodeURI]; the root is resolved first (a factory is
    called), and no step is processed. *)
Theorem route_rejects_on_malformed_escape
  `{Host} options fuel _app expression dicts st a st0 :
  app _app st = (Returns a, st0) ->
  decodeURI expression = Throws URIError ->
  route options fuel _app expression dicts st = (Throws URIError, st0).
Proof.
  intros A D. unfold route. rewrite (bind_returns _ _ _ _ _ A).
  apply bind_throws. destruct expression as [|c e]; [discriminate|].
  unfold parts, analyzePath. apply bind_throws. unfold lift. now rewrite D.
Qed.

(** [ping%zz] is rejected. *)
Lemma route_rejects_on_malformed_escape_witness :
  route noOptions 0 Examples.pingRoot (str "ping%zz") [] Examples.start
  = (Throws URIError, Examples.start).
Proof.
  exact (route_rejects_on_malformed_escape noOptions 0 Examples.pingRoot
           (str "ping%zz") [] Examples.start Examples.pingRoot Examples.start
           eq_refl eq_refl).
Defined.

(** X7.  When the loop holds the current value [undefined], after any steps
    and with any steps left, [route] returns [undefined]: no error, no
    further call, no index lookup. *)
Theorem route_stops_on_undefined
  `{Host} options fuel _app expression dicts st before rest st1 :
  reaches options fuel _app expression dicts st before VUndefined rest st1 ->
  route options fuel _app expression dicts st = (Returns VUndefined, st1).
Proof.
  intros R. rewrite (route_reaches _ _ _ _ _ _ _ _ _ _ R).
  apply finish_plain; [apply walk_undefined | discriminate].
Qed.

(** [a.b] against the root [undefined]. *)
Lemma route_stops_on_undefined_witness :
  route noOptions 0 VUndefined (str "a.b") [] Examples.start
  = (Returns VUndefined, Examples.start).
Proof.
  apply (route_stops_on_undefined noOptions 0 VUndefined (str "a.b") []
           Examples.start [] [ObjectPart (str "a"); ObjectPart (str "b")]).
  exists VUndefined, Examples.start, Examples.start.
  split; [reflexivity | split; vm_compute; reflexivity].
Defined.

(** X8.  When the loop holds the current value [null] and there is no
    [modifyHandler], [route] is rejected with a [TypeError], whether steps
    are left or not: [typeof null] is [object], and the own-property check
    of the next step or of the index is applied to [null]. *)
Theorem route_rejects_on_null
  `{Host} options fuel _app expression dicts st before rest st1 :
  reaches options fuel _app expression dicts st before VNull rest st1 ->
  truthy (modifyHandler options) = false ->
  route options fuel _app expression dicts st = (Throws TypeError, st1).
Proof.
  intros R MH. rewrite (route_reaches _ _ _ _ _ _ _ _ _ _ R).
  destruct rest as [|part rest].
  - reflexivity.
  - apply finish_throws. cbn [walk typeof jstype_eqb negb]. unfold modify.
    rewrite MH. reflexivity.
Qed.

(** The empty path and [a] against the root [null]. *)
Lemma route_rejects_on_null_witness :
  route noOptions 0 VNull [] [] Examples.start
  = (Throws TypeError, Examples.start)
  /\ route noOptions 0 VNull (str "a") [] Examples.start
     = (Throws TypeError, Examples.start).
Proof.
  split.
  - apply (route_rejects_on_null noOptions 0 VNull [] [] Examples.start [] []);
      [|reflexivity].
    exists VNull, Examples.start, Examples.start.
    split; [reflexivity | split; reflexivity].
  - apply (route_rejects_on_null noOptions 0 VNull (str "a") []
             Examples.start [] [ObjectPart (str "a")]); [|reflexivity].
    exists VNull, Examples.start, Examples.start.
    split; [reflexivity | split; vm_compute; reflexivity].
Defined.



(** X10.  A step whose member, or whose member's result, settles to [null] or
    [undefined] (directly or through a fulfilled promise) makes [route]
    reject with a [TypeError]: [iterateToEnd] reads [next] of it. *)
Theorem route_rejects_on_nullish_result
  `{Host} options fuel _app expression dicts st before current part rest st1
  current' st2 m n :
  reaches options fuel _app expression dicts st before current
    (part :: rest) st1 ->
  checked options current part st1 current' st2 ->
  hasOwnProperty current' (identifier part) = Returns true ->
  Get current' (identifier part) = Returns m ->
  n = VUndefined \/ n = VNull ->
  (forall id, part = ObjectPart id -> typeof m <> TFunction ->
     await m = Returns n ->
     route options fuel _app expression dicts st = (Throws TypeError, st2))
  /\ (forall g gown values r w,
        m = VFunction g gown -> partValues part values ->
        invoke g current' (stepArguments options part values) (world st2)
        = (Returns r, w) ->
        await r = Returns n ->
        route options fuel _app expression dicts st
        = (Throws TypeError,
           called st2 w
             (Call g current' (stepArguments options part values)))).
Proof.
  intros R C O G N. rewrite (route_reaches _ _ _ _ _ _ _ _ _ _ R). split.
  - intros id -> F A. apply finish_throws. cbn [identifier] in *.
    rewrite (walk_object_step _ _ _ _ _ _ _ _ _ _ C O G).
    destruct (typeof m) eqn:T; try congruence; cbn [jstype_eqb]; norm;
      now apply (settle_nullish _ _ _ _ _ n).
  - intros g gown values r w -> V I A. apply finish_throws.
    rewrite (walk_call_step _ _ _ _ _ _ _ _ _ _ _ _ C O G V).
    rewrite (bind_returns _ _ _ _ _ (call_function _ _ _ _ _ _ _ I)).
    now apply (settle_nullish _ _ _ _ _ n).
Qed.

(** [a] against [{ a: null }]. *)
Lemma route_rejects_on_nullish_result_witness :
  route noOptions 0 (VObject [(str "a", VNull)] []) (str "a") []
    Examples.start
  = (Throws TypeError, Examples.start).
Proof.
  assert (R : reaches noOptions 0 (VObject [(str "a", VNull)] []) (str "a")
                [] Examples.start [] (VObject [(str "a", VNull)] [])
                [ObjectPart (str "a")] Examples.start).
  { exists (VObject [(str "a", VNull)] []), Examples.start, Examples.start.
    split; [reflexivity | split; vm_compute; reflexivity]. }
  assert (C : checked noOptions (VObject [(str "a", VNull)] [])
                (ObjectPart (str "a")) Examples.start
                (VObject [(str "a", VNull)] []) Examples.start).
  { split; [discriminate | reflexivity]. }
  apply (proj1 (route_rejects_on_nullish_result _ _ _ _ _ _ _ _ _ _ _ _ _
                  VNull VNull R C eq_refl eq_refl (or_intror eq_refl))
           (str "a") eq_refl).
  - discriminate.
  - reflexivity.
Defined.

(** X11.  The faults of the application come out of [route] unchanged: a member
    that is a rejected promise, a member function that throws, and a member
    function that returns a rejected promise reject [route] with the same
    reason, and no further step is processed. *)
Theorem route_propagates_faults
  `{Host} options fuel _app expression dicts st before current part rest st1
  current' st2 m e :
  reaches options fuel _app expression dicts st before current
    (part :: rest) st1 ->
  checked options current part st1 current' st2 ->
  hasOwnProperty current' (identifier part) = Returns true ->
  Get current' (identifier part) = Returns m ->
  (forall id, part = ObjectPart id -> typeof m <> TFunction ->
     await m = Throws e ->
     route options fuel _app expression dicts st = (Throws e, st2))
  /\ (forall g gown values w,
        m = VFunction g gown -> partValues part values ->
        invoke g current' (stepArguments options part values) (world st2)
        = (Throws e, w) ->
        route options fuel _app expression dicts st
        = (Throws e,
           called st2 w
             (Call g current' (stepArguments options part values))))
  /\ (forall g gown values r w,
        m = VFunction g gown -> partValues part values ->
        invoke g current' (stepArguments options part values) (world st2)
        = (Returns r, w) ->
        await r = Throws e ->
        route options fuel _app expression dicts st
        = (Throws e,
           called st2 w
             (Call g current' (stepArguments options part values)))).
Proof.
  intros R C O G. rewrite (route_reaches _ _ _ _ _ _ _ _ _ _ R).
  split; [|split].
  - intros id -> F A. apply finish_throws. cbn [identifier] in *.
    rewrite (walk_object_step _ _ _ _ _ _ _ _ _ _ C O G).
    destruct (typeof m) eqn:T; try congruence; cbn [jstype_eqb]; norm;
      now apply settle_throws.
  - intros g gown values w -> V I. apply finish_throws.
    rewrite (walk_call_step _ _ _ _ _ _ _ _ _ _ _ _ C O G V).
    apply bind_throws. exact (call_function _ _ _ _ _ _ _ I).
  - intros g gown values r w -> V I A. apply finish_throws.
    rewrite (walk_call_step _ _ _ _ _ _ _ _ _ _ _ _ C O G V).
    rewrite (bind_returns _ _ _ _ _ (call_function _ _ _ _ _ _ _ I)).
    now apply settle_throws.
Qed.

(** [f] against an object whose [f] throws. *)
Lemma route_propagates_faults_witness :
  route noOptions 0 (VObject [(str "f", VFunction Faults.failing [])] [])
    (str "f") [] Faults.start
  = (Throws (Thrown (VString (str "boom"))),
     called Faults.start tt
       (Call Faults.failing
          (VObject [(str "f", VFunction Faults.failing [])] []) [])).
Proof.
  set (root := VObject [(str "f", VFunction Faults.failing [])] []).
  assert (R : reaches noOptions 0 root (str "f") [] Faults.start [] root
                [ObjectPart (str "f")] Faults.start).
  { exists root, Faults.start, Faults.start.
    split; [reflexivity | split; vm_compute; reflexivity]. }
  assert (C : checked noOptions root (ObjectPart (str "f")) Faults.start
                root Faults.start).
  { split; [discriminate | reflexivity]. }
  apply (proj1 (proj2 (route_propagates_faults _ _ _ _ _ _ _ _ _ _ _ _ _
                         (VFunction Faults.failing [])
                         (Thrown (VString (str "boom")))
                         R C eq_refl eq_refl))
           Faults.failing [] [] tt eq_refl); reflexivity.
Defined.

(** X12.  A function step whose member is a function is invoked with the
    current object as [this] and with the values of the path arguments, in
    order, followed by the extra arguments, or preceded by them when
    [prependArgs] is truthy; when the result settles to a value that is no
    sequence, the loop goes on with that value. *)
Theorem function_step_arguments
  `{Host} options fuel obj current id args rest st current' st'
  g gown values r w x :
  checked options current (FunctionPart id args) st current' st' ->
  hasOwnProperty current' id = Returns true ->
  Get current' id = Returns (VFunction g gown) ->
  valuesOf args values ->
  invoke g current'
    (if truthy (prependArgs options)
     then additionalArgs options ++ values
     else values ++ additionalArgs options) (world st')
  = (Returns r, w) ->
  await r = Returns x -> notIterable x ->
  walk options fuel obj current (FunctionPart id args :: rest) st
  = walk options fuel (Some (extend obj id)) x rest
      (called st' w
         (Call g current'
            (if truthy (prependArgs options)
             then additionalArgs options ++ values
             else values ++ additionalArgs options))).
Proof.
  intros C O G V I A N.
  rewrite (walk_call_step _ _ _ _ _ _ _ _ _ _ _ values C O G V).
  cbn [stepArguments].
  rewrite (bind_returns _ _ _ _ _ (call_function _ _ _ _ _ _ _ I)).
  now apply settle_value.
Qed.

(** [g(1,2)] with the extra argument [extra] put first. *)
Lemma function_step_arguments_witness :
  walk {| onNextValue := VUndefined; args := Some [VString (str "extra")];
          prependArgs := VBoolean true; modifyHandler := VUndefined;
          index := None |}
    0 None Examples.echoRoot
    [FunctionPart (str "g")
       [valueObject (VNumber (Finite 1)); valueObject (VNumber (Finite 2))]]
    Examples.start
  = (Returns (VString (str "extra"), None),
     called Examples.start 0%nat
       (Call Examples.echo Examples.echoRoot
          [VString (str "extra"); VNumber (Finite 1); VNumber (Finite 2)])).
Proof.
  set (options := {| onNextValue := VUndefined;
                     args := Some [VString (str "extra")];
                     prependArgs := VBoolean true;
                     modifyHandler := VUndefined; index := None |}).
  rewrite (function_step_arguments options 0 None Examples.echoRoot (str "g")
             [valueObject (VNumber (Finite 1));
              valueObject (VNumber (Finite 2))] [] Examples.start
             Examples.echoRoot Examples.start Examples.echo []
             [VNumber (Finite 1); VNumber (Finite 2)]
             (VString (str "extra")) 0%nat (VString (str "extra"))).
  - reflexivity.
  - split; [discriminate | reflexivity].
  - reflexivity.
  - reflexivity.
  - repeat constructor.
  - reflexivity.
  - reflexivity.
  - exists VUndefined. split; reflexivity.
Defined.



(** ** The index, the root, sequences and arguments *)

(** X14.  When the path is exhausted without an error and the current value owns
    the index, checked before [modifyHandler] is applied, then: when the
    index member of the (modified) current value is no function and no
    sequence (it has no callable [next]), the result of [route] is what the
    member settles to; when it is a function, it is invoked with the
    current value as [this] and the extra arguments, and when its result is
    no sequence, the result of [route] is what that result settles to.  In
    both cases the settled value has no callable [then].  The member or the
    result is awaited after [iterateToEnd], not before it: a promise of a
    sequence is not drained here.  With no index configured the key is the
    string [undefined]. *)
Theorem index_fallback
  `{Host} options fuel _app expression dicts st before current st1
  current' st2 m :
  reaches options fuel _app expression dicts st before current [] st1 ->
  hasOwnProperty current (indexKey options) = Returns true ->
  modify options current (indexValue options) st1 = (Returns current', st2) ->
  Get current' (indexKey options) = Returns m ->
  (forall x,
     typeof m <> TFunction -> notIterable m ->
     await m = Returns x -> thenable x = false ->
     route options fuel _app expression dicts st = (Returns x, st2))
  /\ (forall g gown r w x,
        m = VFunction g gown ->
        invoke g current' (additionalArgs options) (world st2)
        = (Returns r, w) ->
        notIterable r -> await r = Returns x -> thenable x = false ->
        route options fuel _app expression dicts st
        = (Returns x, called st2 w (Call g current' (additionalArgs options)))).
Proof.
  intros R O Mo G. rewrite (route_reaches _ _ _ _ _ _ _ _ _ _ R).
  unfold finish. cbn [walk]. norm. cbn [finalResult]. norm. rewrite O.
  unfold indexStep. rewrite (bind_returns _ _ _ _ _ Mo). norm. rewrite G.
  split.
  - intros x F N A _.
    destruct (typeof m) eqn:T; try congruence; cbn [jstype_eqb];
      rewrite (iterateToEnd_notIterable _ _ _ _ N), A;
      now rewrite !(await_idem _ _ A).
  - intros g gown r w x -> I N A _. cbn [typeof jstype_eqb].
    rewrite (call_function _ _ _ _ _ _ _ I).
    rewrite (iterateToEnd_notIterable _ _ _ _ N), A.
    now rewrite !(await_idem _ _ A).
Qed.

(** An object with an own property [undefined] and no index configured; and
    an index function that returns a promise of a generator, which comes out
    undrained. *)
Lemma index_fallback_witness :
  route noOptions 0 (VObject [(str "undefined", VNumber (Finite 5))] [])
    [] [] Examples.start
  = (Returns (VNumber (Finite 5)), Examples.start)
  /\ route {| onNextValue := VUndefined;
              args := Some [VPromise true Examples.generator];
              prependArgs := VUndefined; modifyHandler := VUndefined;
              index := Some (str "g") |}
       0 Examples.echoRoot [] [] Examples.start
     = (Returns Examples.generator,
        called Examples.start 0%nat
          (Call Examples.echo Examples.echoRoot
             [VPromise true Examples.generator])).
Proof.
  split.
  - set (root := VObject [(str "undefined", VNumber (Finite 5))] []).
    assert (R : reaches noOptions 0 root [] [] Examples.start [] root []
                  Examples.start).
    { exists root, Examples.start, Examples.start.
      split; [reflexivity | split; reflexivity]. }
    apply (proj1 (index_fallback _ _ _ _ _ _ _ _ _ root Examples.start
                    (VNumber (Finite 5)) R eq_refl eq_refl eq_refl)).
    + discriminate.
    + exists VUndefined. split; reflexivity.
    + reflexivity.
    + reflexivity.
  - set (options := {| onNextValue := VUndefined;
                       args := Some [VPromise true Examples.generator];
                       prependArgs := VUndefined;
                       modifyHandler := VUndefined;
                       index := Some (str "g") |}).
    assert (R : reaches options 0 Examples.echoRoot [] [] Examples.start []
                  Examples.echoRoot [] Examples.start).
    { exists Examples.echoRoot, Examples.start, Examples.start.
      split; [reflexivity | split; reflexivity]. }
    apply (proj2 (index_fallback _ _ _ _ _ _ _ _ _ Examples.echoRoot
                    Examples.start (VFunction Examples.echo [])
                    R eq_refl eq_refl eq_refl)
             Examples.echo [] (VPromise true Examples.generator) 0%nat).
    + reflexivity.
    + reflexivity.
    + exists VUndefined. split; reflexivity.
    + reflexivity.
    + reflexivity.
Defined.

(** X15.  For a path that is one identifier, with no [modifyHandler]: when the
    root owns the identifier, and the member is no function and settles,
    once awaited, to a value that is no sequence (it has no callable
    [next]), has no callable [then] and does not own the index, [route]
    returns that value, and makes no call. *)
Theorem route_property_lookup
  `{Host} options fuel root id dicts st m x :
  id <> [] ->
  free URI.percent id = true -> free (chr ".") id = true ->
  free (chr "(") id = true ->
  truthy (modifyHandler options) = false ->
  hasOwnProperty root id = Returns true ->
  Get root id = Returns m ->
  typeof m <> TFunction -> await m = Returns x ->
  notIterable x -> thenable x = false ->
  hasOwnProperty x (indexKey options) = Returns false ->
  route options fuel root id dicts st = (Returns x, st).
Proof.
  intros N P D B MH O G F A NI _ I.
  assert (T : typeof root = TObject).
  { unfold hasOwnProperty in O. now destruct (typeof root). }
  assert (R : reaches options fuel root id dicts st [] root
                [ObjectPart id] st).
  { exists root, st, st. repeat split.
    - unfold app. now rewrite T.
    - destruct id as [|c id']; [congruence|]. cbn [parts].
      change (c :: id') with (join (str ".") [c :: id']) at 1.
      apply analyzePath_identifiers; cbn [hd forallb].
      + discriminate.
      + now rewrite P.
      + now rewrite D.
      + now rewrite B. }
  assert (C : checked options root (ObjectPart id) st root st).
  { split; [rewrite T; discriminate|]. unfold modify. now rewrite MH. }
  rewrite (route_reaches _ _ _ _ _ _ _ _ _ _ R).
  pose proof (proj1 (walk_member_step options fuel (accumulated None [])
                       _ _ [] _ _ _ _ C O G) x F A NI) as W.
  cbn [walk] in W. unfold finish. rewrite (bind_returns _ _ _ _ _ W).
  cbn [finalResult]. norm. rewrite I.
  now rewrite (await_idem _ _ A).
Qed.

(** [x] against [{ x: 1 }]. *)
Lemma route_property_lookup_witness :
  route noOptions 0 Examples.x1 (str "x") [] Examples.start
  = (Returns (VNumber (Finite 1)), Examples.start).
Proof.
  apply (route_property_lookup noOptions 0 Examples.x1 (str "x") []
           Examples.start (VNumber (Finite 1))); try reflexivity;
    try discriminate.
  exists VUndefined. split; reflexivity.
Defined.

(** X16.  With no [modifyHandler] configured, the result of a root factory is
    not awaited before the loop: when the factory returns a promise, every
    path of at least one step is not found, the result being a
    [RoutingError] of type [NOT_FOUND], and the empty path gives what the
    promise is fulfilled with. *)
Theorem async_factory_is_not_awaited
  `{Host} options fuel f fown expression dicts st b v w :
  invoke f VUndefined [] (world st) = (Returns (VPromise b v), w) ->
  truthy (modifyHandler options) = false ->
  (forall part rest st1,
     parts expression dicts (called st w (Call f VUndefined []))
     = (Returns (part :: rest), st1) ->
     route options fuel (VFunction f fown) expression dicts st
     = (Returns (VRoutingError (str "The requested path was not found.")
                   (str "NOT_FOUND")), st1))
  /\ (forall x,
        expression = [] -> await (VPromise b v) = Returns x ->
        route options fuel (VFunction f fown) expression dicts st
        = (Returns x, called st w (Call f VUndefined []))).
Proof.
  intros I MH. split.
  - intros part rest st1 P. unfold route, app. cbn [typeof jstype_eqb].
    rewrite (bind_returns _ _ _ _ _ (call_function _ _ _ _ _ _ _ I)).
    rewrite (bind_returns _ _ _ _ _ P).
    cbn [walk typeof jstype_eqb negb]. unfold modify. rewrite MH.
    reflexivity.
  - intros x -> A. unfold route, app. cbn [typeof jstype_eqb].
    rewrite (bind_returns _ _ _ _ _ (call_function _ _ _ _ _ _ _ I)).
    cbn [parts]. norm. cbn [walk]. norm. cbn [finalResult]. norm.
    cbn [hasOwnProperty typeof jstype_eqb Object_hasOwnProperty ownProperty].
    now rewrite A.
Qed.

(** [a] and the empty path against [async () => ({ a: 1 })]. *)
Lemma async_factory_is_not_awaited_witness :
  route noOptions 0 (VFunction Faults.factory []) (str "a") [] Faults.start
  = (Returns (VRoutingError (str "The requested path was not found.")
                (str "NOT_FOUND")),
     called Faults.start tt (Call Faults.factory VUndefined []))
  /\ route noOptions 0 (VFunction Faults.factory []) [] [] Faults.start
     = (Returns (VObject [(str "a", VNumber (Finite 1))] []),
        called Faults.start tt (Call Faults.factory VUndefined [])).
Proof.
  split.
  - apply (proj1 (async_factory_is_not_awaited noOptions 0 Faults.factory []
                    (str "a") [] Faults.start true
                    (VObject [(str "a", VNumber (Finite 1))] []) tt
                    eq_refl eq_refl) (ObjectPart (str "a")) []).
    vm_compute. reflexivity.
  - apply (proj2 (async_factory_is_not_awaited noOptions 0 Faults.factory []
                    [] [] Faults.start true
                    (VObject [(str "a", VNumber (Finite 1))] []) tt
                    eq_refl eq_refl)); reflexivity.
Defined.

Section Drains.
Context `{Host}.
Variable options : Options.

Lemma drain_skip fuel gen n nown st r w1 x :
  Get gen (str "next") = Returns (VFunction n nown) ->
  truthy (onNextValue options) = false ->
  invoke n gen [] (world st) = (Returns r, w1) ->
  yields r x ->
  drain options (S fuel) gen st
  = drain options fuel gen (called st w1 (Call n gen [])).
Proof.
  intros G O I (nextVal & done & x0 & A & D & F & V & X).
  cbn [drain]. norm. rewrite G, O.
  rewrite (call_function _ _ _ _ _ _ _ I), A, D, F. reflexivity.
Qed.

End Drains.

(** X17.  Draining a sequence that gives any number of elements and then
    completes: with [onNextValue] a function, the calls are [next] and
    [onNextValue] with the element, for each element in order, and a last
    [next]; the result is the terminal value, and [onNextValue] is never
    called with it. *)
Theorem drain_calls_hook_per_element
  `{Host} options fuel gen n nown h hown xs v :
  Get gen (str "next") = Returns (VFunction n nown) ->
  onNextValue options = VFunction h hown ->
  forall st w',
    produces n gen (hooked h (optionsObject options)) (world st) xs v w' ->
    drain options (S (List.length xs) + fuel) gen st
    = (Returns v,
       {| world := w';
          trace := trace st
                   ++ drainCalls n gen h (optionsObject options) xs |}).
Proof.
  intros G O st w' P. remember (world st) as w0 eqn:E.
  revert st E. induction P as [w r w' v I C | w r w1 x w2 xs v w' I Y [u J] P IH];
    intros st ->.
  - cbn [List.length Nat.add].
    now rewrite (drain_complete options _ _ _ _ _ _ _ _ G I C).
  - cbn [List.length Nat.add].
    rewrite (drain_yield options _ _ _ _ _ _ _ _ _ _ _ _ G O I Y J).
    rewrite IH by reflexivity. unfold called, drainCalls. cbn [trace flat_map].
    now rewrite <- !app_assoc.
Qed.

(** The generator of the examples, with the hook. *)
Lemma drain_calls_hook_per_element_witness :
  drain Examples.streaming 3 Examples.generator Examples.start
  = (Returns (VString (str "v")),
     {| world := (3%nat : @World Examples.host);
        trace := drainCalls Examples.next Examples.generator Examples.hook
                   (optionsObject Examples.streaming)
                   [VString (str "a"); VString (str "b")] |}).
Proof.
  apply (drain_calls_hook_per_element Examples.streaming 0 Examples.generator
           Examples.next [] Examples.hook []
           [VString (str "a"); VString (str "b")] (VString (str "v"))
           eq_refl eq_refl Examples.start 3%nat).
  eapply produces_more; [reflexivity | | exists VUndefined; reflexivity | ].
  { exists (Examples.iterResult (VString (str "a")) false),
      (VBoolean false), (VString (str "a")). repeat split. }
  eapply produces_more; [reflexivity | | exists VUndefined; reflexivity | ].
  { exists (Examples.iterResult (VString (str "b")) false),
      (VBoolean false), (VString (str "b")). repeat split. }
  eapply produces_done; [reflexivity|].
  exists (Examples.iterResult (VString (str "v")) true),
    (VBoolean true), (VString (str "v")). repeat split.
Defined.

(** X18.  Without [onNextValue], draining a sequence calls [next] once per
    element and once more, and nothing else: the elements are dropped and
    the result is the terminal value. *)
Theorem drain_discards_elements
  `{Host} options fuel gen n nown xs v :
  Get gen (str "next") = Returns (VFunction n nown) ->
  truthy (onNextValue options) = false ->
  forall st w',
    produces n gen unhooked (world st) xs v w' ->
    drain options (S (List.length xs) + fuel) gen st
    = (Returns v,
       {| world := w';
          trace := trace st
                   ++ repeat (Call n gen []) (S (List.length xs)) |}).
Proof.
  intros G O st w' P. remember (world st) as w0 eqn:E.
  revert st E. induction P as [w r w' v I C | w r w1 x w2 xs v w' I Y U P IH];
    intros st ->.
  - cbn [List.length Nat.add].
    now rewrite (drain_complete options _ _ _ _ _ _ _ _ G I C).
  - cbn [List.length Nat.add]. unfold unhooked in U. subst w2.
    rewrite (drain_skip options _ _ _ _ _ _ _ _ G O I Y).
    rewrite IH by reflexivity. unfold called. cbn [trace repeat].
    now rewrite <- !app_assoc.
Qed.

(** The generator of the examples, without a hook. *)
Lemma drain_discards_elements_witness :
  drain noOptions 3 Examples.generator Examples.start
  = (Returns (VString (str "v")),
     {| world := (3%nat : @World Examples.host);
        trace := [Call Examples.next Examples.generator [];
                  Call Examples.next Examples.generator [];
                  Call Examples.next Examples.generator []] |}).
Proof.
  apply (drain_discards_elements noOptions 0 Examples.generator
           Examples.next []
           [VString (str "a"); VString (str "b")] (VString (str "v"))
           eq_refl eq_refl Examples.start 3%nat).
  eapply produces_more; [reflexivity | | reflexivity | ].
  { exists (Examples.iterResult (VString (str "a")) false),
      (VBoolean false), (VString (str "a")). repeat split. }
  eapply produces_more; [reflexivity | | reflexivity | ].
  { exists (Examples.iterResult (VString (str "b")) false),
      (VBoolean false), (VString (str "b")). repeat split. }
  eapply produces_done; [reflexivity|].
  exists (Examples.iterResult (VString (str "v")) true),
    (VBoolean true), (VString (str "v")). repeat split.
Defined.

(** X19.  An argument source that is [null], when the lookup of a bare
    identifier gets to it, makes the analysis throw a [TypeError]: the
    sources after it are not consulted. *)
Theorem null_source_throws `{Host} pre post a st st1 :
  bareIdentifier a = true ->
  skipped pre a st = Some st1 ->
  getArgumentValue (pre ++ VNull :: post) a st = (Throws TypeError, st1).
Proof.
  intros B S.
  rewrite (getArgumentValue_bare _ _ B), (lookupDicts_skipped _ _ _ _ _ S).
  reflexivity.
Qed.

(** [y] through the sources [{ x: 1 }, null, { x: 2 }]. *)
Lemma null_source_throws_witness :
  getArgumentValue [Examples.x1; VNull; Examples.x2] (str "y") Examples.start
  = (Throws TypeError, Examples.start).
Proof.
  exact (null_source_throws [Examples.x1] [Examples.x2] (str "y")
           Examples.start Examples.start eq_refl eq_refl).
Defined.

(** X20.  A token that is no boolean, no number and no identifier resolves to
    an object with the one member [error], the string of the token followed
    by [ is not a valid identifier.], without consulting any source; and
    the function of the step is still invoked, with [undefined] in the
    position of that argument. *)
Theorem invalid_token_passes_undefined `{Host} dicts a st :
  JsString.eqb a (str "true") || JsString.eqb a (str "false") = false ->
  isNaN a = true ->
  identifierRegex_test a = false ->
  getArgumentValue dicts a st
  = (Returns
       (VObject
          [(str "error", VString (a ++ str " is not a valid identifier."))]
          []), st)
  /\ forall options fuel obj current id g gown rest st0 current' st'
       l1 l2 xs1 xs2,
       typeof current <> TUndefined ->
       modify options current (VString id) st0 = (Returns current', st') ->
       hasOwnProperty current' id = Returns true ->
       Get current' id = Returns (VFunction g gown) ->
       valuesOf l1 xs1 -> valuesOf l2 xs2 ->
       exists t,
         trace (snd (walk options fuel obj current
                       (FunctionPart id
                          (l1
                           ++ VObject
                                [(str "error",
                                  VString
                                    (a ++ str " is not a valid identifier."))]
                                []
                           :: l2) :: rest) st0))
         = trace st'
           ++ Call g current'
                (if truthy (prependArgs options)
                 then additionalArgs options ++ xs1 ++ VUndefined :: xs2
                 else (xs1 ++ VUndefined :: xs2) ++ additionalArgs options)
           :: t.
Proof.
  intros B N I. split.
  - unfold getArgumentValue. now rewrite B, N, I.
  - intros options fuel obj current id g gown rest st0 current' st'
      l1 l2 xs1 xs2 U Mo O G V1 V2.
    set (arg := VObject _ _) in *.
    assert (C : checked options current (FunctionPart id (l1 ++ arg :: l2))
                  st0 current' st') by now split.
    assert (V : valuesOf (l1 ++ arg :: l2) (xs1 ++ VUndefined :: xs2)).
    { apply Forall2_app; [exact V1 | constructor; [reflexivity | exact V2]]. }
    rewrite (walk_call_step _ _ _ _ _ _ _ _ _ _ _ _ C O G V).
    cbn [stepArguments].
    set (xs := if truthy (prependArgs options) then _ else _).
    unfold bind, call.
    destruct (invoke g current' xs (world st')) as [r w'].
    destruct r as [r | e |]; cbn [snd trace]; try (now exists []).
    destruct (monotone_settle options fuel (extend obj id) rest r
                {| world := w'; trace := trace st' ++ [Call g current' xs] |})
      as [t E].
    exists t. cbn [identifier]. rewrite E. cbn [trace].
    now rewrite <- app_assoc.
Qed.

(** The token [1a], and the step [g(1a)]. *)
Lemma invalid_token_passes_undefined_witness :
  getArgumentValue [Examples.x1] (str "1a") Examples.start
  = (Returns
       (VObject [(str "error", VString (str "1a is not a valid identifier."))]
          []),
     Examples.start)
  /\ exists t,
       trace (snd (walk noOptions 0 None Examples.echoRoot
                     [FunctionPart (str "g")
                        [VObject
                           [(str "error",
                             VString (str "1a is not a valid identifier."))]
                           []]]
                     Examples.start))
       = Call Examples.echo Examples.echoRoot [VUndefined] :: t.
Proof.
  destruct (invalid_token_passes_undefined [Examples.x1] (str "1a")
              Examples.start eq_refl eq_refl eq_refl) as [A S].
  split; [exact A|].
  apply (S noOptions 0%nat None Examples.echoRoot (str "g") Examples.echo []
           [] Examples.start Examples.echoRoot Examples.start [] [] [] []).
  - discriminate.
  - reflexivity.
  - reflexivity.
  - reflexivity.
  - constructor.
  - constructor.
Defined.
